(** * Case service: payment reconciliation and the payment-event consumer

    A shallow embedding of [src/services/CaseService.ts],
    [src/events/PaymentEventConsumer.ts], [src/events/CaseEventPublisher.ts]
    and [src/models/Case.ts], followed by the properties of the
    idempotent payment pipeline.

    Conventions of the embedding.
    - A JS [number] holding money is an exact rational ([Q]); IEEE rounding,
      [NaN] and the infinities are outside the model.  [==] on numbers is
      [Qeq].
    - A [Date] is its epoch time in milliseconds.
    - Case objects are mutable and shared by reference: they live in a heap
      ([heap]) and the [cases] map holds references ([loc]).
    - A JS [Set] of strings is the list of its elements in insertion order.
    - [new Date()], [uuidv4()], number formatting and the availability of the
      broker channel are read from an environment ([Env]); the world keeps a
      cursor into each stream.
    - [console.log] is not modelled; [console.error], [ack], [nack] and
      [publish] are recorded, in order, on the [wire].
    - A request handler and the consumer callback each run to completion:
      no other handler is interleaved at their [await]s. *)

From Stdlib Require Import QArith Lqa Ascii.
From stdpp Require Import gmap strings list fin_maps pretty.

(** ** Numbers, dates and strings *)

(** [Math.max(a, b)] *)
Definition Math_max (a b : Q) : Q := if Qle_bool a b then b else a.

(** [a > b] on numbers *)
Definition Q_gtb (a b : Q) : bool := negb (Qle_bool a b).

Definition Date : Type := Z.

(** [new Date('YYYY-MM-DD')]: midnight UTC of a civil date, in milliseconds. *)
Definition Date_UTC (y m d : Z) : Date :=
  let y' := (if m <=? 2 then y - 1 else y)%Z in
  let era := (y' / 400)%Z in
  let yoe := (y' - era * 400)%Z in
  let mp := (if 2 <? m then m - 3 else m + 9)%Z in
  let doy := ((153 * mp + 2) / 5 + d - 1)%Z in
  let doe := (yoe * 365 + yoe / 4 - yoe / 100 + doy)%Z in
  ((era * 146097 + doe - 719468) * 86400000)%Z.

Definition upper_ascii (a : ascii) : ascii :=
  let n := nat_of_ascii a in
  if ((97 <=? n) && (n <=? 122))%nat then ascii_of_nat (n - 32) else a.

(** [s.toUpperCase()] on ASCII strings *)
Fixpoint toUpperCase (s : string) : string :=
  match s with
  | EmptyString => EmptyString
  | String a s' => String (upper_ascii a) (toUpperCase s')
  end.

(** [x || d] for an optional string: [undefined] and [''] are falsy. *)
Definition or_string (x : option string) (d : string) : string :=
  match x with
  | Some s => if decide (s = "") then d else s
  | None => d
  end.

(** ** models/Case.ts *)

Inductive CaseStatus : Set :=
  ACTIVE | SETTLEMENT | LEGAL_ACTION | CLOSED | WRITTEN_OFF.

Inductive CasePriority : Set := LOW | MEDIUM | HIGH | CRITICAL.

#[global] Instance CaseStatus_eq_dec : EqDecision CaseStatus.
Proof. solve_decision. Defined.

#[global] Instance CasePriority_eq_dec : EqDecision CasePriority.
Proof. solve_decision. Defined.

(** The string value of the enum member, as interpolated in templates. *)
Definition CaseStatus_str (s : CaseStatus) : string :=
  match s with
  | ACTIVE => "ACTIVE"
  | SETTLEMENT => "SETTLEMENT"
  | LEGAL_ACTION => "LEGAL_ACTION"
  | CLOSED => "CLOSED"
  | WRITTEN_OFF => "WRITTEN_OFF"
  end.

Module Case.

Record t : Type := {
  id : string;
  debtorId : string;
  creditorId : string;
  originalDebt : Q;
  currentDebt : Q;
  paidAmount : Q;
  interestAccrued : Q;
  currency : string;
  status : CaseStatus;
  priority : CasePriority;
  assignedAgentId : option string;
  assignedTeam : option string;
  createdAt : Date;
  updatedAt : Date;
  lastContactAt : option Date;
  lastPaymentAt : option Date;
  nextActionAt : option Date;
  closedAt : option Date;
  source : string;
  externalRef : option string;
  tags : option (list string);
  notes : option string
}.

(** Field assignments [c.f = v]. *)
Definition set_paidAmount (v : Q) (c : t) : t :=
  {| id := id c; debtorId := debtorId c; creditorId := creditorId c;
     originalDebt := originalDebt c; currentDebt := currentDebt c;
     paidAmount := v; interestAccrued := interestAccrued c;
     currency := currency c; status := status c; priority := priority c;
     assignedAgentId := assignedAgentId c; assignedTeam := assignedTeam c;
     createdAt := createdAt c; updatedAt := updatedAt c;
     lastContactAt := lastContactAt c; lastPaymentAt := lastPaymentAt c;
     nextActionAt := nextActionAt c; closedAt := closedAt c;
     source := source c; externalRef := externalRef c; tags := tags c;
     notes := notes c |}.

Definition set_currentDebt (v : Q) (c : t) : t :=
  {| id := id c; debtorId := debtorId c; creditorId := creditorId c;
     originalDebt := originalDebt c; currentDebt := v;
     paidAmount := paidAmount c; interestAccrued := interestAccrued c;
     currency := currency c; status := status c; priority := priority c;
     assignedAgentId := assignedAgentId c; assignedTeam := assignedTeam c;
     createdAt := createdAt c; updatedAt := updatedAt c;
     lastContactAt := lastContactAt c; lastPaymentAt := lastPaymentAt c;
     nextActionAt := nextActionAt c; closedAt := closedAt c;
     source := source c; externalRef := externalRef c; tags := tags c;
     notes := notes c |}.

Definition set_lastPaymentAt (v : option Date) (c : t) : t :=
  {| id := id c; debtorId := debtorId c; creditorId := creditorId c;
     originalDebt := originalDebt c; currentDebt := currentDebt c;
     paidAmount := paidAmount c; interestAccrued := interestAccrued c;
     currency := currency c; status := status c; priority := priority c;
     assignedAgentId := assignedAgentId c; assignedTeam := assignedTeam c;
     createdAt := createdAt c; updatedAt := updatedAt c;
     lastContactAt := lastContactAt c; lastPaymentAt := v;
     nextActionAt := nextActionAt c; closedAt := closedAt c;
     source := source c; externalRef := externalRef c; tags := tags c;
     notes := notes c |}.

Definition set_updatedAt (v : Date) (c : t) : t :=
  {| id := id c; debtorId := debtorId c; creditorId := creditorId c;
     originalDebt := originalDebt c; currentDebt := currentDebt c;
     paidAmount := paidAmount c; interestAccrued := interestAccrued c;
     currency := currency c; status := status c; priority := priority c;
     assignedAgentId := assignedAgentId c; assignedTeam := assignedTeam c;
     createdAt := createdAt c; updatedAt := v;
     lastContactAt := lastContactAt c; lastPaymentAt := lastPaymentAt c;
     nextActionAt := nextActionAt c; closedAt := closedAt c;
     source := source c; externalRef := externalRef c; tags := tags c;
     notes := notes c |}.

Definition set_status (v : CaseStatus) (c : t) : t :=
  {| id := id c; debtorId := debtorId c; creditorId := creditorId c;
     originalDebt := originalDebt c; currentDebt := currentDebt c;
     paidAmount := paidAmount c; interestAccrued := interestAccrued c;
     currency := currency c; status := v; priority := priority c;
     assignedAgentId := assignedAgentId c; assignedTeam := assignedTeam c;
     createdAt := createdAt c; updatedAt := updatedAt c;
     lastContactAt := lastContactAt c; lastPaymentAt := lastPaymentAt c;
     nextActionAt := nextActionAt c; closedAt := closedAt c;
     source := source c; externalRef := externalRef c; tags := tags c;
     notes := notes c |}.

Definition set_closedAt (v : option Date) (c : t) : t :=
  {| id := id c; debtorId := debtorId c; creditorId := creditorId c;
     originalDebt := originalDebt c; currentDebt := currentDebt c;
     paidAmount := paidAmount c; interestAccrued := interestAccrued c;
     currency := currency c; status := status c; priority := priority c;
     assignedAgentId := assignedAgentId c; assignedTeam := assignedTeam c;
     createdAt := createdAt c; updatedAt := updatedAt c;
     lastContactAt := lastContactAt c; lastPaymentAt := lastPaymentAt c;
     nextActionAt := nextActionAt c; closedAt := v; source := source c;
     externalRef := externalRef c; tags := tags c; notes := notes c |}.

Definition set_priority (v : CasePriority) (c : t) : t :=
  {| id := id c; debtorId := debtorId c; creditorId := creditorId c;
     originalDebt := originalDebt c; currentDebt := currentDebt c;
     paidAmount := paidAmount c; interestAccrued := interestAccrued c;
     currency := currency c; status := status c; priority := v;
     assignedAgentId := assignedAgentId c; assignedTeam := assignedTeam c;
     createdAt := createdAt c; updatedAt := updatedAt c;
     lastContactAt := lastContactAt c; lastPaymentAt := lastPaymentAt c;
     nextActionAt := nextActionAt c; closedAt := closedAt c;
     source := source c; externalRef := externalRef c; tags := tags c;
     notes := notes c |}.

Definition set_assignedAgentId (v : option string) (c : t) : t :=
  {| id := id c; debtorId := debtorId c; creditorId := creditorId c;
     originalDebt := originalDebt c; currentDebt := currentDebt c;
     paidAmount := paidAmount c; interestAccrued := interestAccrued c;
     currency := currency c; status := status c; priority := priority c;
     assignedAgentId := v; assignedTeam := assignedTeam c;
     createdAt := createdAt c; updatedAt := updatedAt c;
     lastContactAt := lastContactAt c; lastPaymentAt := lastPaymentAt c;
     nextActionAt := nextActionAt c; closedAt := closedAt c;
     source := source c; externalRef := externalRef c; tags := tags c;
     notes := notes c |}.

Definition set_assignedTeam (v : option string) (c : t) : t :=
  {| id := id c; debtorId := debtorId c; creditorId := creditorId c;
     originalDebt := originalDebt c; currentDebt := currentDebt c;
     paidAmount := paidAmount c; interestAccrued := interestAccrued c;
     currency := currency c; status := status c; priority := priority c;
     assignedAgentId := assignedAgentId c; assignedTeam := v;
     createdAt := createdAt c; updatedAt := updatedAt c;
     lastContactAt := lastContactAt c; lastPaymentAt := lastPaymentAt c;
     nextActionAt := nextActionAt c; closedAt := closedAt c;
     source := source c; externalRef := externalRef c; tags := tags c;
     notes := notes c |}.

Definition set_notes (v : option string) (c : t) : t :=
  {| id := id c; debtorId := debtorId c; creditorId := creditorId c;
     originalDebt := originalDebt c; currentDebt := currentDebt c;
     paidAmount := paidAmount c; interestAccrued := interestAccrued c;
     currency := currency c; status := status c; priority := priority c;
     assignedAgentId := assignedAgentId c; assignedTeam := assignedTeam c;
     createdAt := createdAt c; updatedAt := updatedAt c;
     lastContactAt := lastContactAt c; lastPaymentAt := lastPaymentAt c;
     nextActionAt := nextActionAt c; closedAt := closedAt c;
     source := source c; externalRef := externalRef c; tags := tags c;
     notes := v |}.

Definition set_tags (v : option (list string)) (c : t) : t :=
  {| id := id c; debtorId := debtorId c; creditorId := creditorId c;
     originalDebt := originalDebt c; currentDebt := currentDebt c;
     paidAmount := paidAmount c; interestAccrued := interestAccrued c;
     currency := currency c; status := status c; priority := priority c;
     assignedAgentId := assignedAgentId c; assignedTeam := assignedTeam c;
     createdAt := createdAt c; updatedAt := updatedAt c;
     lastContactAt := lastContactAt c; lastPaymentAt := lastPaymentAt c;
     nextActionAt := nextActionAt c; closedAt := closedAt c;
     source := source c; externalRef := externalRef c; tags := v;
     notes := notes c |}.

End Case.

Module CreateCaseDto.

Record t : Type := {
  debtorId : string;
  creditorId : string;
  originalDebt : Q;
  currency : option string;
  priority : option CasePriority;
  source : string;
  externalRef : option string;
  notes : option string
}.

End CreateCaseDto.

Module UpdateCaseDto.

Record t : Type := {
  status : option CaseStatus;
  priority : option CasePriority;
  assignedAgentId : option string;
  assignedTeam : option string;
  notes : option string;
  tags : option (list string)
}.

End UpdateCaseDto.

Module CaseStatusResponse.

Record t : Type := {
  caseId : string;
  status : CaseStatus;
  canAcceptPayments : bool;
  reason : option string
}.

End CaseStatusResponse.

Module CaseHistoryEntry.

(** [metadata] is never passed by any caller and stays [undefined]. *)
Record t : Type := {
  id : string;
  caseId : string;
  action : string;
  description : string;
  performedBy : string;
  performedAt : Date;
  metadata : option (list (string * string))
}.

End CaseHistoryEntry.

(** ** events/PaymentEventConsumer.ts and events/CaseEventPublisher.ts: data *)

Module PaymentPayload.

Record t : Type := {
  id : string;
  caseId : string;
  debtorId : string;
  amount : Q;
  currency : string;
  status : string;
  processedAt : option string
}.

End PaymentPayload.

Module PaymentCompletedEvent.

Record t : Type := {
  eventId : string;
  timestamp : string;
  version : string;
  source : string;
  correlationId : string;
  payload : PaymentPayload.t
}.

End PaymentCompletedEvent.

Module XDeath.

(** One entry of the [x-death] header; [count] may be missing. *)
Record t : Type := { count : option Z }.

End XDeath.

Module ConsumeMessage.

(** [content] is the result of [JSON.parse(msg.content.toString())] followed
    by the field reads of the handler: [None] when that throws.  [x_death] is
    [msg.properties.headers?.['x-death']]. *)
Record t : Type := {
  content : option PaymentCompletedEvent.t;
  x_death : option (list XDeath.t)
}.

End ConsumeMessage.

Module BalanceUpdatePayload.

Record t : Type := {
  caseId : string;
  previousBalance : Q;
  newBalance : Q;
  paymentId : string;
  paymentAmount : Q;
  currency : string;
  caseStatus : CaseStatus
}.

End BalanceUpdatePayload.

Module StatusChangePayload.

Record t : Type := {
  caseId : string;
  previousStatus : CaseStatus;
  newStatus : CaseStatus;
  reason : string
}.

End StatusChangePayload.

Inductive EventPayload : Type :=
  | BalanceUpdated (p : BalanceUpdatePayload.t)
  | StatusChanged (p : StatusChangePayload.t).

Module CaseEvent.

(** [CaseBalanceUpdatedEvent] and [CaseStatusChangedEvent]; [timestamp] is
    the date whose ISO string the envelope carries. *)
Record t : Type := {
  eventId : string;
  eventType : string;
  timestamp : Date;
  version : string;
  source : string;
  correlationId : string;
  payload : EventPayload
}.

End CaseEvent.

(** ** The world: module-level state, heap, wire and environment *)

(** References to case objects. *)
Definition loc : Type := nat.

(** What the process does to the outside, in the order it does it:
    [channel.ack(msg)], [channel.nack(msg, allUpTo, requeue)],
    [channel.publish(exchange, routingKey, message, ...)] and
    [console.error(text, ...)]. *)
Inductive Effect : Type :=
  | EAck (msg : ConsumeMessage.t)
  | ENack (msg : ConsumeMessage.t) (allUpTo requeue : bool)
  | EPublish (exchange routingKey : string) (message : CaseEvent.t)
  | EConsoleError (text : string).

(** [cases], [caseHistory] and [processedPayments] are the module-level
    variables of CaseService.ts, [processedEventIds] the field of the
    consumer; [dates], [uuids] and [sends] count the reads of the
    environment done so far. *)
Record World : Type := {
  cases : gmap string loc;
  heap : gmap loc Case.t;
  caseHistory : gmap string (list CaseHistoryEntry.t);
  processedPayments : list string;
  processedEventIds : list string;
  wire : list Effect;
  dates : nat;
  uuids : nat;
  sends : nat
}.

Definition set_cases (v : gmap string loc) (w : World) : World :=
  {| cases := v; heap := heap w; caseHistory := caseHistory w;
     processedPayments := processedPayments w;
     processedEventIds := processedEventIds w; wire := wire w;
     dates := dates w; uuids := uuids w; sends := sends w |}.

Definition set_heap (v : gmap loc Case.t) (w : World) : World :=
  {| cases := cases w; heap := v; caseHistory := caseHistory w;
     processedPayments := processedPayments w;
     processedEventIds := processedEventIds w; wire := wire w;
     dates := dates w; uuids := uuids w; sends := sends w |}.

Definition set_caseHistory (v : gmap string (list CaseHistoryEntry.t)) (w : World) : World :=
  {| cases := cases w; heap := heap w; caseHistory := v;
     processedPayments := processedPayments w;
     processedEventIds := processedEventIds w; wire := wire w;
     dates := dates w; uuids := uuids w; sends := sends w |}.

Definition set_processedPayments (v : list string) (w : World) : World :=
  {| cases := cases w; heap := heap w; caseHistory := caseHistory w;
     processedPayments := v; processedEventIds := processedEventIds w;
     wire := wire w; dates := dates w; uuids := uuids w; sends := sends w |}.

Definition set_processedEventIds (v : list string) (w : World) : World :=
  {| cases := cases w; heap := heap w; caseHistory := caseHistory w;
     processedPayments := processedPayments w; processedEventIds := v;
     wire := wire w; dates := dates w; uuids := uuids w; sends := sends w |}.

Definition set_wire (v : list Effect) (w : World) : World :=
  {| cases := cases w; heap := heap w; caseHistory := caseHistory w;
     processedPayments := processedPayments w;
     processedEventIds := processedEventIds w; wire := v; dates := dates w;
     uuids := uuids w; sends := sends w |}.

Definition set_dates (v : nat) (w : World) : World :=
  {| cases := cases w; heap := heap w; caseHistory := caseHistory w;
     processedPayments := processedPayments w;
     processedEventIds := processedEventIds w; wire := wire w; dates := v;
     uuids := uuids w; sends := sends w |}.

Definition set_uuids (v : nat) (w : World) : World :=
  {| cases := cases w; heap := heap w; caseHistory := caseHistory w;
     processedPayments := processedPayments w;
     processedEventIds := processedEventIds w; wire := wire w;
     dates := dates w; uuids := v; sends := sends w |}.

Definition set_sends (v : nat) (w : World) : World :=
  {| cases := cases w; heap := heap w; caseHistory := caseHistory w;
     processedPayments := processedPayments w;
     processedEventIds := processedEventIds w; wire := wire w;
     dates := dates w; uuids := uuids w; sends := v |}.

(** What the code reads from outside: [Date_now n] is the value of the
    [n]-th [new Date()], [uuidv4 n] the [n]-th identifier drawn,
    [getFullYear d] the local year of a date, [Number_toString x] the text of
    a number in a template literal, and [channel_ok n] tells whether the
    [n]-th publication finds the broker channel and goes through. *)
Record Env : Type := {
  Date_now : nat -> Date;
  getFullYear : Date -> Z;
  uuidv4 : nat -> string;
  Number_toString : Q -> string;
  channel_ok : nat -> bool
}.

(** ** Computations: state, exceptions *)

Inductive Result (A : Type) : Type :=
  | Ok (a : A)
  | Throw (message : string).

Arguments Ok {A} a.
Arguments Throw {A} message.

Definition M (A : Type) : Type := World -> Result A * World.

Definition ret {A} (a : A) : M A := fun w => (Ok a, w).

Definition bind {A B} (m : M A) (k : A -> M B) : M B :=
  fun w =>
    match m w with
    | (Ok a, w') => k a w'
    | (Throw e, w') => (Throw e, w')
    end.

Definition throw {A} (message : string) : M A := fun w => (Throw message, w).

(** [try { body } catch (error) { handler(error.message) }] *)
Definition try_catch {A} (body : M A) (handler : string -> M A) : M A :=
  fun w =>
    match body w with
    | (Ok a, w') => (Ok a, w')
    | (Throw e, w') => handler e w'
    end.

Notation "'let!' x ':=' m 'in' k" := (bind m (fun x => k))
  (at level 10, x name, m at level 100, k at level 200).
Notation "m '>>' k" := (bind m (fun _ => k))
  (at level 90, right associativity).

Definition when (b : bool) (m : M unit) : M unit := if b then m else ret tt.

(** [if (x !== undefined) { k x }] *)
Definition whenDefined {A} (x : option A) (k : A -> M unit) : M unit :=
  match x with Some v => k v | None => ret tt end.

Definition gets {A} (f : World -> A) : M A := fun w => (Ok (f w), w).
Definition modify (f : World -> World) : M unit := fun w => (Ok tt, f w).

(** *** JS [Set<string>] in insertion order *)

Definition Set_has (k : string) (s : list string) : bool := bool_decide (k ∈ s).

Definition Set_add (k : string) (s : list string) : list string :=
  if Set_has k s then s else s ++ [k].

Definition Set_delete (k : string) (s : list string) : list string :=
  filter (fun x => x ≠ k) s.

Definition Set_size (s : list string) : Z := Z.of_nat (length s).

(** [Array.from(s).slice(0, n)] *)
Definition Array_slice0 {A} (n : Z) (a : list A) : list A := take (Z.to_nat n) a.

(** [ks.forEach((key) => s.delete(key))] *)
Definition evict (s ks : list string) : list string :=
  foldl (fun s' key => Set_delete key s') s ks.

(** The clean-up run after an insertion, the same text in [recordPayment]
    and in the consumer:
    [if (s.size > 10000) { Array.from(s).slice(0, 5000).forEach(k => s.delete(k)) }] *)
Definition cleanup (s : list string) : list string :=
  if (10000 <? Set_size s)%Z
  then evict s (Array_slice0 5000 s)
  else s.

(** ** services/CaseService.ts *)

Section Service.

Variable env : Env.

(** [new Date()] and [uuidv4()] read the next value of their stream. *)
Definition newDate : M Date :=
  fun w => (Ok (Date_now env (dates w)), set_dates (S (dates w)) w).

Definition uuid : M string :=
  fun w => (Ok (uuidv4 env (uuids w)), set_uuids (S (uuids w)) w).

(** *** Case objects *)

(** An object literal creates a new object. *)
Definition alloc (c : Case.t) : M loc :=
  fun w =>
    let l := fresh (dom (heap w)) in
    (Ok l, set_heap (<[l := c]> (heap w)) w).

(** Reading through a reference.  A reference always designates an object in
    JS; the [Throw] keeps the function total on worlds that are not
    well formed. *)
Definition deref (l : loc) : M Case.t :=
  fun w =>
    match heap w !! l with
    | Some c => (Ok c, w)
    | None => (Throw "TypeError: dangling reference", w)
    end.

(** In-place mutation [o.f = e(o)] of the object behind a reference. *)
Definition assign (l : loc) (f : Case.t -> Case.t) : M unit :=
  modify (fun w => set_heap (alter f l (heap w)) w).

(** *** The module-level maps [cases], [caseHistory] and the set
    [processedPayments] *)

Definition cases_get (id : string) : M (option loc) :=
  gets (fun w => cases w !! id).

Definition cases_set (id : string) (l : loc) : M unit :=
  modify (fun w => set_cases (<[id := l]> (cases w)) w).

Definition caseHistory_get (id : string) : M (option (list CaseHistoryEntry.t)) :=
  gets (fun w => caseHistory w !! id).

Definition caseHistory_set (id : string) (h : list CaseHistoryEntry.t) : M unit :=
  modify (fun w => set_caseHistory (<[id := h]> (caseHistory w)) w).

Fixpoint forEach {A} (xs : list A) (f : A -> M unit) : M unit :=
  match xs with
  | [] => ret tt
  | x :: xs' => f x >> forEach xs' f
  end.

(** The five objects of the [sampleCases] array literal. *)
Definition sampleCase1 : Case.t :=
  {| Case.id := "CASE-2024-001";
     Case.debtorId := "DBT-12345";
     Case.creditorId := "CRED-BANK-001";
     Case.originalDebt := 18000;
     Case.currentDebt := 15000;
     Case.paidAmount := 3000;
     Case.interestAccrued := 1200;
     Case.currency := "PLN";
     Case.status := SETTLEMENT;
     Case.priority := MEDIUM;
     Case.assignedAgentId := Some "agent-anna-k";
     Case.assignedTeam := Some "Settlement Team";
     Case.createdAt := Date_UTC 2023 6 15;
     Case.updatedAt := Date_UTC 2024 1 15;
     Case.lastContactAt := Some (Date_UTC 2024 1 10);
     Case.lastPaymentAt := Some (Date_UTC 2024 1 15);
     Case.nextActionAt := Some (Date_UTC 2024 2 15);
     Case.closedAt := None;
     Case.source := "Portfolio-2023-Q2";
     Case.externalRef := Some "BANK-REF-12345";
     Case.tags := Some ["settlement"; "regular-payer"];
     Case.notes :=
     Some "Debtor cooperating well. Settlement plan: 12 monthly installments." |}.

Definition sampleCase2 : Case.t :=
  {| Case.id := "CASE-2024-002";
     Case.debtorId := "DBT-67890";
     Case.creditorId := "CRED-TELCO-001";
     Case.originalDebt := 5200.50;
     Case.currentDebt := 5200.50;
     Case.paidAmount := 0;
     Case.interestAccrued := 320;
     Case.currency := "PLN";
     Case.status := ACTIVE;
     Case.priority := HIGH;
     Case.assignedAgentId := Some "agent-jan-m";
     Case.assignedTeam := Some "Collection Team A";
     Case.createdAt := Date_UTC 2024 1 10;
     Case.updatedAt := Date_UTC 2024 1 10;
     Case.lastContactAt := None;
     Case.lastPaymentAt := None;
     Case.nextActionAt := Some (Date_UTC 2024 1 25);
     Case.closedAt := None;
     Case.source := "Direct-Assignment";
     Case.externalRef := Some "TELCO-2024-67890";
     Case.tags := Some ["new-case"; "first-contact-pending"];
     Case.notes := None |}.

Definition sampleCase3 : Case.t :=
  {| Case.id := "CASE-2024-003";
     Case.debtorId := "DBT-11111";
     Case.creditorId := "CRED-BANK-002";
     Case.originalDebt := 45000;
     Case.currentDebt := 40000;
     Case.paidAmount := 5000;
     Case.interestAccrued := 8500;
     Case.currency := "PLN";
     Case.status := LEGAL_ACTION;
     Case.priority := CRITICAL;
     Case.assignedAgentId := Some "legal-team";
     Case.assignedTeam := Some "Legal Department";
     Case.createdAt := Date_UTC 2022 3 20;
     Case.updatedAt := Date_UTC 2023 11 15;
     Case.lastContactAt := Some (Date_UTC 2023 8 10);
     Case.lastPaymentAt := Some (Date_UTC 2023 8 10);
     Case.nextActionAt := None;
     Case.closedAt := None;
     Case.source := "Portfolio-2022-Q1";
     Case.externalRef := Some "BANK-REF-11111";
     Case.tags := Some ["legal-action"; "court-pending"];
     Case.notes :=
     Some "Court case in progress. File no: IC 1234/23. No contact from debtor." |}.

Definition sampleCase4 : Case.t :=
  {| Case.id := "CASE-2024-004";
     Case.debtorId := "DBT-22222";
     Case.creditorId := "CRED-UTILITY-001";
     Case.originalDebt := 8500;
     Case.currentDebt := 0;
     Case.paidAmount := 8500;
     Case.interestAccrued := 0;
     Case.currency := "PLN";
     Case.status := CLOSED;
     Case.priority := LOW;
     Case.assignedAgentId := Some "agent-piotr-s";
     Case.assignedTeam := Some "Collection Team B";
     Case.createdAt := Date_UTC 2023 1 5;
     Case.updatedAt := Date_UTC 2024 1 20;
     Case.lastContactAt := Some (Date_UTC 2024 1 18);
     Case.lastPaymentAt := Some (Date_UTC 2024 1 20);
     Case.nextActionAt := None;
     Case.closedAt := Some (Date_UTC 2024 1 20);
     Case.source := "Portfolio-2023-Q1";
     Case.externalRef := None;
     Case.tags := Some ["paid-in-full"];
     Case.notes := Some "Fully paid. Case closed successfully." |}.

Definition sampleCase5 : Case.t :=
  {| Case.id := "CASE-2024-005";
     Case.debtorId := "DBT-33333";
     Case.creditorId := "CRED-BANK-001";
     Case.originalDebt := 125000;
     Case.currentDebt := 125000;
     Case.paidAmount := 0;
     Case.interestAccrued := 15000;
     Case.currency := "PLN";
     Case.status := WRITTEN_OFF;
     Case.priority := LOW;
     Case.assignedAgentId := None;
     Case.assignedTeam := None;
     Case.createdAt := Date_UTC 2019 6 1;
     Case.updatedAt := Date_UTC 2023 6 1;
     Case.lastContactAt := None;
     Case.lastPaymentAt := None;
     Case.nextActionAt := None;
     Case.closedAt := None;
     Case.source := "Portfolio-2019-Q2";
     Case.externalRef := None;
     Case.tags := Some ["written-off"; "no-contact"];
     Case.notes := Some "Debtor unreachable. Written off after 4 years." |}.

Definition sampleCases : list Case.t :=
  [sampleCase1; sampleCase2; sampleCase3; sampleCase4; sampleCase5].

Definition initializeSampleData : M unit :=
  forEach sampleCases (fun c =>
    let! o := alloc c in
    cases_set (Case.id c) o >>
    caseHistory_set (Case.id c) []).

(** [private addHistoryEntry] *)
Definition addHistoryEntry (caseId action description performedBy : string) : M unit :=
  let! found := caseHistory_get caseId in
  let history := default [] found in
  let! id := uuid in
  let! performedAt := newDate in
  caseHistory_set caseId
    (history ++
     [ {| CaseHistoryEntry.id := id;
          CaseHistoryEntry.caseId := caseId;
          CaseHistoryEntry.action := action;
          CaseHistoryEntry.description := description;
          CaseHistoryEntry.performedBy := performedBy;
          CaseHistoryEntry.performedAt := performedAt;
          CaseHistoryEntry.metadata := None |} ]).

(** [private canAcceptPayments] *)
Definition canAcceptPayments (status : CaseStatus) : bool :=
  negb (bool_decide (status = LEGAL_ACTION)).

Definition getCaseById (id : string) : M (option loc) := cases_get id.

Definition getCaseStatus (id : string) : M (option CaseStatusResponse.t) :=
  let! caseData := cases_get id in
  match caseData with
  | None => ret None
  | Some caseData =>
      let! c := deref caseData in
      let canAccept := canAcceptPayments (Case.status c) in
      let reason :=
        if negb canAccept then
          if bool_decide (Case.status c = LEGAL_ACTION)
          then Some "Case is in legal action. Contact legal department."
          else if bool_decide (Case.status c = CLOSED)
          then Some "Case is closed. Payment may trigger review."
          else None
        else None in
      ret (Some {| CaseStatusResponse.caseId := id;
                   CaseStatusResponse.status := Case.status c;
                   CaseStatusResponse.canAcceptPayments := canAccept;
                   CaseStatusResponse.reason := reason |})
  end.

Definition createCase (dto : CreateCaseDto.t) : M loc :=
  let! year := newDate in
  let! u := uuid in
  let id := "CASE-" +:+ pretty (getFullYear env year) +:+ "-"
            +:+ toUpperCase (String.substring 0 6 u) in
  let! now := newDate in
  let! newCase := alloc
    {| Case.id := id;
       Case.debtorId := CreateCaseDto.debtorId dto;
       Case.creditorId := CreateCaseDto.creditorId dto;
       Case.originalDebt := CreateCaseDto.originalDebt dto;
       Case.currentDebt := CreateCaseDto.originalDebt dto;
       Case.paidAmount := 0;
       Case.interestAccrued := 0;
       Case.currency := or_string (CreateCaseDto.currency dto) "PLN";
       Case.status := ACTIVE;
       Case.priority := default MEDIUM (CreateCaseDto.priority dto);
       Case.assignedAgentId := None;
       Case.assignedTeam := None;
       Case.createdAt := now;
       Case.updatedAt := now;
       Case.lastContactAt := None;
       Case.lastPaymentAt := None;
       Case.nextActionAt := None;
       Case.closedAt := None;
       Case.source := CreateCaseDto.source dto;
       Case.externalRef := CreateCaseDto.externalRef dto;
       Case.tags := None;
       Case.notes := CreateCaseDto.notes dto |} in
  cases_set id newCase >>
  caseHistory_set id [] >>
  addHistoryEntry id "CASE_CREATED" "Case created" "system" >>
  ret newCase.

Definition updateCase (id : string) (dto : UpdateCaseDto.t) : M (option loc) :=
  let! caseData := cases_get id in
  match caseData with
  | None => ret None
  | Some caseData =>
      let! before := deref caseData in
      let oldStatus := Case.status before in
      whenDefined (UpdateCaseDto.status dto) (fun v =>
        assign caseData (Case.set_status v)) >>
      whenDefined (UpdateCaseDto.priority dto) (fun v =>
        assign caseData (Case.set_priority v)) >>
      whenDefined (UpdateCaseDto.assignedAgentId dto) (fun v =>
        assign caseData (Case.set_assignedAgentId (Some v))) >>
      whenDefined (UpdateCaseDto.assignedTeam dto) (fun v =>
        assign caseData (Case.set_assignedTeam (Some v))) >>
      whenDefined (UpdateCaseDto.notes dto) (fun v =>
        assign caseData (Case.set_notes (Some v))) >>
      whenDefined (UpdateCaseDto.tags dto) (fun v =>
        assign caseData (Case.set_tags (Some v))) >>
      let! d := newDate in
      assign caseData (Case.set_updatedAt d) >>
      whenDefined (UpdateCaseDto.status dto) (fun v =>
        when (negb (bool_decide (v = oldStatus)))
          (addHistoryEntry id "STATUS_CHANGED"
             ("Status changed from " +:+ CaseStatus_str oldStatus +:+ " to "
              +:+ CaseStatus_str v)
             "system" >>
           when (bool_decide (v = CLOSED))
             (let! d' := newDate in
              assign caseData (Case.set_closedAt (Some d'))))) >>
      cases_set id caseData >>
      ret (Some caseData)
  end.

Definition idempotencyKey (caseId paymentId : string) : string :=
  caseId +:+ ":" +:+ paymentId.

Definition recordPayment (caseId paymentId : string) (amount : Q) : M (option loc) :=
  let! caseData := cases_get caseId in
  match caseData with
  | None => ret None
  | Some caseData =>
      let! seen := gets (fun w => Set_has (idempotencyKey caseId paymentId)
                                    (processedPayments w)) in
      if seen then ret (Some caseData)
      else
        assign caseData (fun c =>
          Case.set_paidAmount (Case.paidAmount c + amount) c) >>
        assign caseData (fun c =>
          Case.set_currentDebt
            (Math_max 0 (Case.originalDebt c + Case.interestAccrued c
                         - Case.paidAmount c)) c) >>
        let! d1 := newDate in
        assign caseData (Case.set_lastPaymentAt (Some d1)) >>
        let! d2 := newDate in
        assign caseData (Case.set_updatedAt d2) >>
        let! c := deref caseData in
        addHistoryEntry caseId "PAYMENT_RECEIVED"
          ("Payment " +:+ paymentId +:+ " received: "
           +:+ Number_toString env amount +:+ " " +:+ Case.currency c)
          "payment-service" >>
        let! c := deref caseData in
        when (Qle_bool (Case.currentDebt c) 0
              && negb (bool_decide (Case.status c = CLOSED)))
          (assign caseData (Case.set_status CLOSED) >>
           let! d3 := newDate in
           assign caseData (Case.set_closedAt (Some d3)) >>
           addHistoryEntry caseId "CASE_CLOSED"
             "Case auto-closed: debt fully paid" "system") >>
        let! c := deref caseData in
        when (bool_decide (Case.status c = WRITTEN_OFF) && Q_gtb amount 0)
          (assign caseData (Case.set_status ACTIVE) >>
           addHistoryEntry caseId "CASE_REOPENED"
             "Case reopened due to payment received after write-off" "system") >>
        modify (fun w =>
          set_processedPayments
            (Set_add (idempotencyKey caseId paymentId) (processedPayments w)) w) >>
        modify (fun w =>
          set_processedPayments (cleanup (processedPayments w)) w) >>
        cases_set caseId caseData >>
        ret (Some caseData)
  end.

Definition getCaseHistory (caseId : string) : M (list CaseHistoryEntry.t) :=
  let! found := caseHistory_get caseId in
  ret (default [] found).

End Service.

(** ** events/CaseEventPublisher.ts *)

Section Events.

Variable env : Env.

Definition emit (e : Effect) : M unit :=
  modify (fun w => set_wire (wire w ++ [e]) w).

(** [rabbitmq.getChannel()] followed by [channel.publish(...)]: the broker
    either takes the message or one of the two calls throws. *)
Definition channel_publish (exchange routingKey : string) (message : CaseEvent.t) : M unit :=
  let! n := gets sends in
  modify (set_sends (S n)) >>
  if channel_ok env n
  then emit (EPublish exchange routingKey message)
  else throw "RabbitMQ channel not available".

(** [private publish]: [config.exchange] is ['kruk.events']. *)
Definition publish (routingKey : string) (event : CaseEvent.t) : M unit :=
  try_catch
    (channel_publish "kruk.events" routingKey event)
    (fun error =>
       emit (EConsoleError
               ("[CaseEventPublisher] Failed to publish " +:+ routingKey +:+ ":"))).

Definition publishBalanceUpdated (payload : BalanceUpdatePayload.t) : M unit :=
  let! eventId := uuid env in
  let! timestamp := newDate env in
  publish "case.balance.updated"
    {| CaseEvent.eventId := eventId;
       CaseEvent.eventType := "case.balance.updated";
       CaseEvent.timestamp := timestamp;
       CaseEvent.version := "1.0";
       CaseEvent.source := "case-service";
       CaseEvent.correlationId := BalanceUpdatePayload.paymentId payload;
       CaseEvent.payload := BalanceUpdated payload |}.

Definition publishStatusChanged (payload : StatusChangePayload.t) : M unit :=
  let! eventId := uuid env in
  let! timestamp := newDate env in
  publish "case.status.changed"
    {| CaseEvent.eventId := eventId;
       CaseEvent.eventType := "case.status.changed";
       CaseEvent.timestamp := timestamp;
       CaseEvent.version := "1.0";
       CaseEvent.source := "case-service";
       CaseEvent.correlationId := StatusChangePayload.caseId payload;
       CaseEvent.payload := StatusChanged payload |}.

(** ** events/PaymentEventConsumer.ts *)

Definition handlePaymentCompleted (event : PaymentCompletedEvent.t) : M unit :=
  let payload := PaymentCompletedEvent.payload event in
  let! caseBefore := getCaseById (PaymentPayload.caseId payload) in
  match caseBefore with
  | None => throw ("Case not found: " +:+ PaymentPayload.caseId payload)
  | Some caseBefore =>
      let! b := deref caseBefore in
      let previousBalance := Case.currentDebt b in
      let! updatedCase :=
        recordPayment env (PaymentPayload.caseId payload)
          (PaymentPayload.id payload) (PaymentPayload.amount payload) in
      match updatedCase with
      | None =>
          throw ("Failed to record payment for case: "
                 +:+ PaymentPayload.caseId payload)
      | Some updatedCase =>
          let! u := deref updatedCase in
          publishBalanceUpdated
            {| BalanceUpdatePayload.caseId := PaymentPayload.caseId payload;
               BalanceUpdatePayload.previousBalance := previousBalance;
               BalanceUpdatePayload.newBalance := Case.currentDebt u;
               BalanceUpdatePayload.paymentId := PaymentPayload.id payload;
               BalanceUpdatePayload.paymentAmount := PaymentPayload.amount payload;
               BalanceUpdatePayload.currency := PaymentPayload.currency payload;
               BalanceUpdatePayload.caseStatus := Case.status u |} >>
          let! b' := deref caseBefore in
          let! u' := deref updatedCase in
          when (negb (bool_decide (Case.status b' = Case.status u')))
            (publishStatusChanged
               {| StatusChangePayload.caseId := PaymentPayload.caseId payload;
                  StatusChangePayload.previousStatus := Case.status b';
                  StatusChangePayload.newStatus := Case.status u';
                  StatusChangePayload.reason :=
                    if Qle_bool (Case.currentDebt u') 0
                    then "Debt fully paid" else "Status updated" |})
      end
  end.

(** [private getDeathCount] *)
Definition getDeathCount (msg : ConsumeMessage.t) : Z :=
  match ConsumeMessage.x_death msg with
  | None => 0
  | Some xDeath =>
      foldl (fun count death => count + default 0 (XDeath.count death))%Z 0%Z xDeath
  end.

(** The body of the [try] block of the callback given to [channel.consume]. *)
Definition processMessage (msg : ConsumeMessage.t) : M unit :=
  match ConsumeMessage.content msg with
  | None => throw "Unexpected token in JSON"
  | Some event =>
      let! seen := gets (fun w => Set_has (PaymentCompletedEvent.eventId event)
                                    (processedEventIds w)) in
      if seen then emit (EAck msg)
      else
        handlePaymentCompleted event >>
        modify (fun w =>
          set_processedEventIds
            (Set_add (PaymentCompletedEvent.eventId event) (processedEventIds w)) w) >>
        modify (fun w =>
          set_processedEventIds (cleanup (processedEventIds w)) w) >>
        emit (EAck msg)
  end.

(** The callback given to [channel.consume] in [startConsuming]. *)
Definition onMessage (msg : option ConsumeMessage.t) : M unit :=
  match msg with
  | None => ret tt
  | Some msg =>
      try_catch (processMessage msg)
        (fun errorMessage =>
           emit (EConsoleError
                   ("[PaymentEventConsumer] Error processing message: "
                    +:+ errorMessage)) >>
           let deaths := getDeathCount msg in
           if (deaths <? 3)%Z
           then emit (ENack msg false true)
           else emit (ENack msg false false))
  end.

(** ** controllers/CaseController.ts: the guards in front of the service

    Each handler answers with an HTTP status code. *)

Definition Controller_createCase (dto : CreateCaseDto.t) : M Z :=
  try_catch
    (if bool_decide (CreateCaseDto.debtorId dto = "")
        || bool_decide (CreateCaseDto.creditorId dto = "")
        || Qeq_bool (CreateCaseDto.originalDebt dto) 0
        || bool_decide (CreateCaseDto.source dto = "")
     then ret 400%Z
     else if Qle_bool (CreateCaseDto.originalDebt dto) 0
     then ret 400%Z
     else createCase env dto >> ret 201%Z)
    (fun _ => ret 500%Z).

Definition Controller_updateCase (id : string) (dto : UpdateCaseDto.t) : M Z :=
  try_catch
    (let! updated := updateCase env id dto in
     match updated with
     | None => ret 404%Z
     | Some _ => ret 200%Z
     end)
    (fun _ => ret 500%Z).

Definition Controller_recordPayment (id paymentId : string) (amount : Q) : M Z :=
  try_catch
    (if bool_decide (paymentId = "") || Qeq_bool amount 0
     then ret 400%Z
     else
       let! updated := recordPayment env id paymentId amount in
       match updated with
       | None => ret 404%Z
       | Some _ => ret 200%Z
       end)
    (fun _ => ret 500%Z).

Definition Controller_getCaseStatus (id : string) : M Z :=
  try_catch
    (let! status := getCaseStatus id in
     match status with
     | None => ret 404%Z
     | Some _ => ret 200%Z
     end)
    (fun _ => ret 500%Z).

(** ** The running system

    What reaches the process: a REST request or a delivery from the queue. *)

Inductive Input : Type :=
  | PostCase (dto : CreateCaseDto.t)
  | PatchCase (id : string) (dto : UpdateCaseDto.t)
  | PostPayment (id paymentId : string) (amount : Q)
  | GetStatus (id : string)
  | Delivery (msg : ConsumeMessage.t).

Definition serve (i : Input) (w : World) : World :=
  match i with
  | PostCase dto => snd (Controller_createCase dto w)
  | PatchCase id dto => snd (Controller_updateCase id dto w)
  | PostPayment id paymentId amount => snd (Controller_recordPayment id paymentId amount w)
  | GetStatus id => snd (Controller_getCaseStatus id w)
  | Delivery msg => snd (onMessage (Some msg) w)
  end.

Definition run (inputs : list Input) (w : World) : World :=
  foldl (fun w' i => serve i w') w inputs.

Definition emptyWorld : World :=
  {| cases := ∅; heap := ∅; caseHistory := ∅; processedPayments := [];
     processedEventIds := []; wire := []; dates := 0; uuids := 0; sends := 0 |}.

(** The world once the module CaseService.ts has been loaded. *)
Definition initialWorld : World := snd (initializeSampleData emptyWorld).

Definition reachable (w : World) : Prop :=
  exists inputs, w = run inputs initialWorld.


(** The case object stored under an identifier. *)
Definition lookupCase (w : World) (caseId : string) : option Case.t :=
  match cases w !! caseId with
  | Some l => heap w !! l
  | None => None
  end.

End Events.

(** ** Closed forms, proved equal to the code in the lemmas below *)

Section Summary.

Variable env : Env.

Definition historyEntry (caseId action description performedBy : string)
    (u n : nat) : CaseHistoryEntry.t :=
  {| CaseHistoryEntry.id := uuidv4 env u;
     CaseHistoryEntry.caseId := caseId;
     CaseHistoryEntry.action := action;
     CaseHistoryEntry.description := description;
     CaseHistoryEntry.performedBy := performedBy;
     CaseHistoryEntry.performedAt := Date_now env n;
     CaseHistoryEntry.metadata := None |}.

(** Lines 313-316 of CaseService.ts on the case object. *)
Definition applied (amount : Q) (d1 d2 : Date) (c : Case.t) : Case.t :=
  let c1 := Case.set_paidAmount (Case.paidAmount c + amount) c in
  let c2 := Case.set_currentDebt
              (Math_max 0 (Case.originalDebt c1 + Case.interestAccrued c1
                           - Case.paidAmount c1)) c1 in
  Case.set_updatedAt d2 (Case.set_lastPaymentAt (Some d1) c2).

(** The guard of the auto-close block, line 326. *)
Definition closes (c : Case.t) : bool :=
  Qle_bool (Case.currentDebt c) 0 && negb (bool_decide (Case.status c = CLOSED)).

(** The guard of the reopen block, line 333. *)
Definition reopens (amount : Q) (c : Case.t) : bool :=
  bool_decide (Case.status c = WRITTEN_OFF) && Q_gtb amount 0.

(** The case object, the history entries appended and the stream cursors
    after the two guarded blocks. *)
Definition settled (caseId paymentId : string) (amount : Q) (n u : nat) (c : Case.t)
    : Case.t * list CaseHistoryEntry.t * nat * nat :=
  let c1 := applied amount (Date_now env n) (Date_now env (S n)) c in
  let e1 := historyEntry caseId "PAYMENT_RECEIVED"
              ("Payment " +:+ paymentId +:+ " received: "
               +:+ Number_toString env amount +:+ " " +:+ Case.currency c1)
              "payment-service" u (S (S n)) in
  let '(c2, h2, n2, u2) :=
    if closes c1
    then (Case.set_closedAt (Some (Date_now env (S (S (S n)))))
            (Case.set_status CLOSED c1),
          [e1; historyEntry caseId "CASE_CLOSED"
                 "Case auto-closed: debt fully paid" "system"
                 (S u) (S (S (S (S n))))],
          S (S (S (S (S n)))), S (S u))
    else (c1, [e1], S (S (S n)), S u) in
  if reopens amount c2
  then (Case.set_status ACTIVE c2,
        h2 ++ [historyEntry caseId "CASE_REOPENED"
                 "Case reopened due to payment received after write-off"
                 "system" u2 n2],
        S n2, S u2)
  else (c2, h2, n2, u2).

Definition paymentOutcome (w : World) (caseId paymentId : string) (amount : Q)
    (l : loc) (c : Case.t) : World :=
  let '(c', h, n, u) := settled caseId paymentId amount (dates w) (uuids w) c in
  {| cases := cases w;
     heap := <[l := c']> (heap w);
     caseHistory :=
       <[caseId := default [] (caseHistory w !! caseId) ++ h]> (caseHistory w);
     processedPayments :=
       cleanup (Set_add (idempotencyKey caseId paymentId) (processedPayments w));
     processedEventIds := processedEventIds w;
     wire := wire w;
     dates := n;
     uuids := u;
     sends := sends w |}.

End Summary.

(** ** Vocabulary of the properties *)






(** [currentDebt == max(0, originalDebt + interestAccrued - paidAmount)] *)
Definition balanced (c : Case.t) : Prop :=
  (Case.currentDebt c
   == Math_max 0 (Case.originalDebt c + Case.interestAccrued c - Case.paidAmount c))%Q.

(** Every reference held by [cases] designates an object. *)
Definition wf (w : World) : Prop :=
  forall id l, cases w !! id = Some l -> is_Some (heap w !! l).

(** The actions recorded in the history of a case, oldest first. *)
Definition actions (w : World) (caseId : string) : list string :=
  CaseHistoryEntry.action <$> default [] (caseHistory w !! caseId).

(** ** The consumer in closed form *)

Section ConsumerSummary.

Variable env : Env.

(** What [publish] leaves on the wire at the [n]-th use of the channel. *)
Definition publishAttempt (routingKey : string) (event : CaseEvent.t) (n : nat) : Effect :=
  if channel_ok env n
  then EPublish "kruk.events" routingKey event
  else EConsoleError
         ("[CaseEventPublisher] Failed to publish " +:+ routingKey +:+ ":").

Definition balancePayload (event : PaymentCompletedEvent.t) (b u : Case.t)
    : BalanceUpdatePayload.t :=
  let payload := PaymentCompletedEvent.payload event in
  {| BalanceUpdatePayload.caseId := PaymentPayload.caseId payload;
     BalanceUpdatePayload.previousBalance := Case.currentDebt b;
     BalanceUpdatePayload.newBalance := Case.currentDebt u;
     BalanceUpdatePayload.paymentId := PaymentPayload.id payload;
     BalanceUpdatePayload.paymentAmount := PaymentPayload.amount payload;
     BalanceUpdatePayload.currency := PaymentPayload.currency payload;
     BalanceUpdatePayload.caseStatus := Case.status u |}.

Definition balanceEvent (payload : BalanceUpdatePayload.t) (u n : nat) : CaseEvent.t :=
  {| CaseEvent.eventId := uuidv4 env u;
     CaseEvent.eventType := "case.balance.updated";
     CaseEvent.timestamp := Date_now env n;
     CaseEvent.version := "1.0";
     CaseEvent.source := "case-service";
     CaseEvent.correlationId := BalanceUpdatePayload.paymentId payload;
     CaseEvent.payload := BalanceUpdated payload |}.

(** The world after [handlePaymentCompleted], from the world [w1] that
    [recordPayment] left; [b] is the case object before and [u] after. *)
Definition published (event : PaymentCompletedEvent.t) (b u : Case.t) (w1 : World) : World :=
  set_wire
    (wire w1
     ++ [publishAttempt "case.balance.updated"
           (balanceEvent (balancePayload event b u) (uuids w1) (dates w1))
           (sends w1)])
    (set_sends (S (sends w1))
       (set_dates (S (dates w1)) (set_uuids (S (uuids w1)) w1))).

(** The world after the [try] block has run to its end. *)
Definition acknowledged (msg : ConsumeMessage.t) (event : PaymentCompletedEvent.t)
    (p : World) : World :=
  set_wire (wire p ++ [EAck msg])
    (set_processedEventIds
       (cleanup (Set_add (PaymentCompletedEvent.eventId event) (processedEventIds p)))
       p).

(** The world after the [catch] block, from the world [w1] of the throw. *)
Definition rejected (msg : ConsumeMessage.t) (errorMessage : string) (w1 : World) : World :=
  set_wire
    (wire w1
     ++ [EConsoleError
           ("[PaymentEventConsumer] Error processing message: " +:+ errorMessage);
         ENack msg false (bool_decide (getDeathCount msg < 3)%Z)])
    w1.

End ConsumerSummary.

(** ** Relations between the case objects of two worlds *)

(** The four money fields are the same. *)
Definition sameDebts (c c' : Case.t) : Prop :=
  Case.originalDebt c' = Case.originalDebt c
  /\ Case.interestAccrued c' = Case.interestAccrued c
  /\ Case.paidAmount c' = Case.paidAmount c
  /\ Case.currentDebt c' = Case.currentDebt c.

(** [c'] is [c] after lines 313-314 have run with [amount]. *)
Definition paidOnce (amount : Q) (c c' : Case.t) : Prop :=
  Case.originalDebt c' = Case.originalDebt c
  /\ Case.interestAccrued c' = Case.interestAccrued c
  /\ Case.paidAmount c' = (Case.paidAmount c + amount)%Q
  /\ Case.currentDebt c'
     = Math_max 0 (Case.originalDebt c + Case.interestAccrued c
                   - (Case.paidAmount c + amount))%Q.

(** Every object of [w] is still there in [w'], related by [R]. *)
Definition heapExt (R : Case.t -> Case.t -> Prop) (w w' : World) : Prop :=
  forall l c, heap w !! l = Some c -> exists c', heap w' !! l = Some c' /\ R c c'.

(** The payment amount an input carries, if any, satisfies [allowed]. *)
Definition inputAllowed (allowed : Q -> Prop) (i : Input) : Prop :=
  match i with
  | PostPayment _ _ amount => allowed amount
  | Delivery msg =>
      match ConsumeMessage.content msg with
      | Some event =>
          allowed (PaymentPayload.amount (PaymentCompletedEvent.payload event))
      | None => True
      end
  | _ => True
  end.

Definition keepsBalance (c c' : Case.t) : Prop := balanced c -> balanced c'.



(** A fixed environment and inputs for the examples. *)
Definition env0 : Env :=
  {| Date_now := fun n => (1706000000000 + Z.of_nat n)%Z;
     getFullYear := fun _ => 2024%Z;
     uuidv4 := fun n => "uuid-" +:+ pretty n;
     Number_toString := fun q => pretty (Qnum q) +:+ "/" +:+ pretty (Zpos (Qden q));
     channel_ok := fun _ => true |}.




Definition poison (n : Z) : ConsumeMessage.t :=
  {| ConsumeMessage.content := None;
     ConsumeMessage.x_death := Some [ {| XDeath.count := Some n |} ] |}.

(** The initial world with a ledger of 10000 keys. *)
Definition crowded : World :=
  set_processedPayments
    ((fun n : nat => "CASE-2024-001:PAY-" +:+ pretty n) <$> seq 0 (Z.to_nat 10000))
    initialWorld.
(** * Properties *)

(** ** Symbolic execution of the computations *)

Ltac prims :=
  unfold when, whenDefined, addHistoryEntry, assign, deref, cases_get, cases_set,
    caseHistory_get, caseHistory_set, newDate, uuid, emit, gets, modify, throw,
    try_catch, bind, ret.

Ltac red_world :=
  cbn beta iota delta
    [cases heap caseHistory processedPayments processedEventIds wire dates uuids
     sends set_cases set_heap set_caseHistory set_processedPayments
     set_processedEventIds set_wire set_dates set_uuids set_sends fst snd
     from_option id].

Ltac maps :=
  rewrite ?alter_insert_eq, ?lookup_insert_eq, ?insert_insert_eq.

Ltac exec := repeat (progress (red_world; maps)).

(** ** The insertion-ordered set *)

Lemma Set_has_true (k : string) (s : list string) : Set_has k s = true <-> k ∈ s.
Proof. unfold Set_has. apply bool_decide_eq_true. Qed.

Lemma Set_has_false (k : string) (s : list string) : Set_has k s = false <-> k ∉ s.
Proof. unfold Set_has. apply bool_decide_eq_false. Qed.

Lemma Set_delete_elem (k x : string) (s : list string) :
  x ∈ Set_delete k s <-> x ∈ s /\ x ≠ k.
Proof. unfold Set_delete. rewrite list_elem_of_filter. tauto. Qed.

Lemma Set_delete_absent (k : string) (s : list string) :
  k ∉ s -> Set_delete k s = s.
Proof.
  unfold Set_delete. induction s as [|x s IH]; intros Hk; [reflexivity|].
  rewrite not_elem_of_cons in Hk. destruct Hk as [Hne Hk].
  rewrite filter_cons_True by congruence. f_equal. auto.
Qed.

Lemma Set_add_NoDup (k : string) (s : list string) : NoDup s -> NoDup (Set_add k s).
Proof.
  intros Hs. unfold Set_add. destruct (Set_has k s) eqn:E; [assumption|].
  apply Set_has_false in E. apply NoDup_app. repeat split; auto.
  - intros x Hx Hx'. apply list_elem_of_singleton in Hx'. subst. contradiction.
  - apply NoDup_singleton.
Qed.

Lemma evict_elem (ks s : list string) (x : string) :
  x ∈ evict s ks <-> x ∈ s /\ x ∉ ks.
Proof.
  unfold evict. revert s. induction ks as [|k ks IH]; intros s; cbn [foldl].
  - rewrite elem_of_nil. tauto.
  - rewrite IH, Set_delete_elem, not_elem_of_cons. tauto.
Qed.

Lemma evict_prefix (a b : list string) : NoDup (a ++ b) -> evict (a ++ b) a = b.
Proof.
  unfold evict. induction a as [|x a IH]; intros Hnd; [reflexivity|].
  cbn [foldl app]. apply NoDup_cons in Hnd as [Hx Hnd].
  unfold Set_delete at 2. rewrite filter_cons_False by (intros H; apply H; reflexivity).
  fold (Set_delete x (a ++ b)). rewrite Set_delete_absent by assumption. auto.
Qed.

Lemma cleanup_unfold (s : list string) :
  cleanup s = if (10000 <? Set_size s)%Z then evict s (take (Z.to_nat 5000) s) else s.
Proof. reflexivity. Qed.

(** On a duplicate-free set the clean-up removes exactly the first 5000
    elements of the insertion order, when there are more than 10000. *)
Lemma cleanup_NoDup (s : list string) :
  NoDup s ->
  cleanup s = if (10000 <? Set_size s)%Z then drop (Z.to_nat 5000) s else s.
Proof.
  intros Hnd. rewrite cleanup_unfold. destruct (10000 <? Set_size s)%Z; [|reflexivity].
  rewrite <- (take_drop (Z.to_nat 5000) s) at 1.
  apply evict_prefix. rewrite take_drop. assumption.
Qed.

Lemma cleanup_subset (s : list string) (x : string) : x ∈ cleanup s -> x ∈ s.
Proof.
  rewrite cleanup_unfold. destruct (10000 <? Set_size s)%Z; [|tauto].
  rewrite evict_elem. tauto.
Qed.

Lemma cleanup_NoDup_preserved (s : list string) : NoDup s -> NoDup (cleanup s).
Proof.
  intros Hnd. rewrite cleanup_NoDup by assumption.
  destruct (10000 <? Set_size s)%Z; [|assumption].
  rewrite <- (take_drop (Z.to_nat 5000) s) in Hnd.
  apply NoDup_app in Hnd. tauto.
Qed.

(** The key just inserted survives the clean-up that follows. *)
Lemma cleanup_keeps_new (k : string) (s : list string) :
  Set_has k s = false -> k ∈ cleanup (Set_add k s).
Proof.
  intros E. unfold Set_add. rewrite E. apply Set_has_false in E.
  rewrite cleanup_unfold. unfold Set_size. rewrite length_app. cbn [length].
  destruct (10000 <? _)%Z eqn:Hsz.
  - apply Z.ltb_lt in Hsz. rewrite evict_elem. split.
    + apply elem_of_app. right. apply list_elem_of_singleton. reflexivity.
    + rewrite take_app_le by lia. intros Hin. apply E.
      apply elem_of_take in Hin as (i & Hi & _).
      eapply list_elem_of_lookup_2; eassumption.
  - apply elem_of_app. right. apply list_elem_of_singleton. reflexivity.
Qed.

(** ** Numbers *)

Lemma Math_max_nonpos (x : Q) :
  (x <= 0)%Q -> Qle_bool (Math_max 0 x) 0 = true /\ (Math_max 0 x == 0)%Q.
Proof.
  intros Hx. unfold Math_max. destruct (Qle_bool 0 x) eqn:E.
  - apply Qle_bool_iff in E. split; [apply Qle_bool_iff; assumption | lra].
  - split; [reflexivity | lra].
Qed.



(** ** recordPayment, path by path *)

Section RecordPayment.

Variable env : Env.

Lemma recordPayment_unknown w caseId paymentId amount :
  cases w !! caseId = None ->
  recordPayment env caseId paymentId amount w = (Ok None, w).
Proof. intros Hc. unfold recordPayment. prims. red_world. rewrite Hc. reflexivity. Qed.

Lemma recordPayment_duplicate w caseId paymentId amount l :
  cases w !! caseId = Some l ->
  Set_has (idempotencyKey caseId paymentId) (processedPayments w) = true ->
  recordPayment env caseId paymentId amount w = (Ok (Some l), w).
Proof.
  intros Hc Hs. unfold recordPayment. prims. red_world. rewrite Hc. red_world.
  rewrite Hs. reflexivity.
Qed.

Lemma recordPayment_fresh w caseId paymentId amount l c :
  cases w !! caseId = Some l ->
  heap w !! l = Some c ->
  Set_has (idempotencyKey caseId paymentId) (processedPayments w) = false ->
  recordPayment env caseId paymentId amount w
  = (Ok (Some l), paymentOutcome env w caseId paymentId amount l c).
Proof.
  intros Hc Hh Hs. unfold recordPayment, paymentOutcome, settled. prims.
  red_world. rewrite Hc. red_world. rewrite Hs. red_world.
  rewrite (alter_alt_Some _ _ _ _ Hh). exec.
  fold (applied amount (Date_now env (dates w)) (Date_now env (S (dates w))) c).
  set (c1 := applied _ _ _ c).
  change (Qle_bool (Case.currentDebt c1) 0
          && negb (bool_decide (Case.status c1 = CLOSED))) with (closes c1).
  destruct (closes c1) eqn:Hcl; exec.
  - change (Case.status (Case.set_closedAt _ _)) with CLOSED.
    unfold reopens. change (Case.status (Case.set_closedAt _ _)) with CLOSED.
    rewrite bool_decide_eq_false_2 by discriminate. cbn [andb]. exec.
    rewrite (insert_id _ _ _ Hc), <- ?app_assoc. reflexivity.
  - change (bool_decide (Case.status c1 = WRITTEN_OFF) && Q_gtb amount 0)
      with (reopens amount c1).
    destruct (reopens amount c1); exec;
      rewrite (insert_id _ _ _ Hc), <- ?app_assoc; reflexivity.
Qed.

(** The three paths cover every well-formed world. *)
Lemma recordPayment_cases w caseId paymentId amount :
  wf w ->
  (cases w !! caseId = None
   /\ recordPayment env caseId paymentId amount w = (Ok None, w))
  \/ (exists l, cases w !! caseId = Some l
      /\ Set_has (idempotencyKey caseId paymentId) (processedPayments w) = true
      /\ recordPayment env caseId paymentId amount w = (Ok (Some l), w))
  \/ (exists l c, cases w !! caseId = Some l /\ heap w !! l = Some c
      /\ Set_has (idempotencyKey caseId paymentId) (processedPayments w) = false
      /\ recordPayment env caseId paymentId amount w
         = (Ok (Some l), paymentOutcome env w caseId paymentId amount l c)).
Proof.
  intros Hwf. destruct (cases w !! caseId) as [l|] eqn:Hc.
  - destruct (Hwf _ _ Hc) as [c Hh].
    destruct (Set_has (idempotencyKey caseId paymentId) (processedPayments w)) eqn:Hs.
    + right. left. exists l. auto using recordPayment_duplicate.
    + right. right. exists l, c. auto using recordPayment_fresh.
  - left. auto using recordPayment_unknown.
Qed.

(** Components of the world after a payment that is not a duplicate. *)
Lemma paymentOutcome_fields w caseId paymentId amount l c :
  let o := paymentOutcome env w caseId paymentId amount l c in
  let s := settled env caseId paymentId amount (dates w) (uuids w) c in
  cases o = cases w
  /\ heap o = <[l := s.1.1.1]> (heap w)
  /\ caseHistory o
     = <[caseId := default [] (caseHistory w !! caseId) ++ s.1.1.2]> (caseHistory w)
  /\ processedPayments o
     = cleanup (Set_add (idempotencyKey caseId paymentId) (processedPayments w))
  /\ processedEventIds o = processedEventIds w
  /\ wire o = wire w /\ sends o = sends w.
Proof.
  cbv zeta. unfold paymentOutcome.
  destruct (settled env caseId paymentId amount (dates w) (uuids w) c) as [[[c' h] n] u].
  cbn. repeat split; reflexivity.
Qed.

Lemma applied_fields amount d1 d2 c :
  let c1 := applied amount d1 d2 c in
  Case.paidAmount c1 = (Case.paidAmount c + amount)%Q
  /\ Case.currentDebt c1
     = Math_max 0 (Case.originalDebt c + Case.interestAccrued c
                   - (Case.paidAmount c + amount))%Q
  /\ Case.originalDebt c1 = Case.originalDebt c
  /\ Case.interestAccrued c1 = Case.interestAccrued c
  /\ Case.status c1 = Case.status c
  /\ Case.closedAt c1 = Case.closedAt c.
Proof. cbv zeta. repeat split; reflexivity. Qed.

(** The money fields after the two guarded blocks are those of [applied]. *)
Lemma settled_money caseId paymentId amount n u c :
  paidOnce amount c (settled env caseId paymentId amount n u c).1.1.1.
Proof.
  unfold settled, paidOnce.
  set (c1 := applied _ _ _ c).
  destruct (closes c1); [destruct (reopens amount (Case.set_closedAt _ _))
                        | destruct (reopens amount c1)];
    repeat split; reflexivity.
Qed.

End RecordPayment.

(** ** The reconciliation engine *)

Section Engine.

Variable env : Env.

Lemma lookupCase_outcome w caseId paymentId amount l c :
  cases w !! caseId = Some l ->
  lookupCase (paymentOutcome env w caseId paymentId amount l c) caseId
  = Some (settled env caseId paymentId amount (dates w) (uuids w) c).1.1.1.
Proof.
  intros Hc. unfold lookupCase.
  destruct (paymentOutcome_fields env w caseId paymentId amount l c)
    as (-> & -> & _).
  rewrite Hc. apply lookup_insert_eq.
Qed.

Lemma actions_outcome w caseId paymentId amount l c :
  actions (paymentOutcome env w caseId paymentId amount l c) caseId
  = actions w caseId
    ++ (CaseHistoryEntry.action
          <$> (settled env caseId paymentId amount (dates w) (uuids w) c).1.1.2).
Proof.
  unfold actions.
  destruct (paymentOutcome_fields env w caseId paymentId amount l c)
    as (_ & _ & -> & _).
  rewrite lookup_insert_eq. cbn [from_option id]. apply fmap_app.
Qed.

(** A payment whose key is resident in the ledger changes nothing. *)
Lemma recordPayment_resident w caseId paymentId amount :
  idempotencyKey caseId paymentId ∈ processedPayments w ->
  recordPayment env caseId paymentId amount w = (Ok (cases w !! caseId), w).
Proof.
  intros Hin. apply Set_has_true in Hin.
  destruct (cases w !! caseId) as [l|] eqn:Hc.
  - apply recordPayment_duplicate; assumption.
  - apply recordPayment_unknown; assumption.
Qed.

(** C1. Applying [recordPayment] a second time with the same [caseId] and
    [paymentId] (and any amount) returns what the first application returned
    and leaves the world exactly as the first application left it: case
    fields, timestamps, history and ledger are untouched.  The result is a
    normal return, never an exception, and for an existing case the second
    call finds the key [caseId:paymentId] in the ledger. *)
Theorem recordPayment_idempotent w caseId paymentId amount amount' :
  wf w ->
  let first := recordPayment env caseId paymentId amount w in
  recordPayment env caseId paymentId amount' (snd first) = first
  /\ (exists r, fst first = Ok r)
  /\ (forall l, cases w !! caseId = Some l ->
        fst first = Ok (Some l)
        /\ Set_has (idempotencyKey caseId paymentId)
             (processedPayments (snd first)) = true).
Proof.
  intros Hwf. cbv zeta.
  destruct (recordPayment_cases env w caseId paymentId amount Hwf)
    as [(Hc & E) | [(l & Hc & Hs & E) | (l & c & Hc & Hh & Hs & E)]];
    rewrite E; cbn [fst snd].
  - split; [apply recordPayment_unknown; assumption|].
    split; [eauto|]. intros l Hl. congruence.
  - split; [apply recordPayment_duplicate; assumption|].
    split; [eauto|]. intros l' Hl. split; congruence.
  - destruct (paymentOutcome_fields env w caseId paymentId amount l c)
      as (Ec & _ & _ & Ep & _).
    assert (Hk : Set_has (idempotencyKey caseId paymentId)
                   (processedPayments
                      (paymentOutcome env w caseId paymentId amount l c)) = true).
    { apply Set_has_true. rewrite Ep. apply cleanup_keeps_new. assumption. }
    split; [apply recordPayment_duplicate; [rewrite Ec|]; assumption|].
    split; [eauto|]. intros l' Hl. split; congruence.
Qed.

(** C5. For a [caseId] that is not in the case store [recordPayment] returns
    [null] and the world is unchanged: no case is created or modified, no
    history entry is appended and no key enters the ledger. *)
Theorem recordPayment_unknown_case w caseId paymentId amount :
  cases w !! caseId = None ->
  recordPayment env caseId paymentId amount w = (Ok None, w).
Proof. apply recordPayment_unknown. Qed.

(** C3. A payment that is not a duplicate and brings the recomputed debt to
    zero or below, on a case that is not CLOSED (ACTIVE, SETTLEMENT,
    LEGAL_ACTION or WRITTEN_OFF), leaves the case CLOSED with
    [currentDebt == 0], stamps [closedAt] and records a CASE_CLOSED history
    entry after the PAYMENT_RECEIVED one.  On a case that is CLOSED already
    the case stays CLOSED, [closedAt] is kept and only PAYMENT_RECEIVED is
    recorded. *)
Theorem recordPayment_autoclose w caseId paymentId amount l c :
  cases w !! caseId = Some l ->
  heap w !! l = Some c ->
  Set_has (idempotencyKey caseId paymentId) (processedPayments w) = false ->
  let remaining :=
    (Case.originalDebt c + Case.interestAccrued c - (Case.paidAmount c + amount))%Q in
  let w' := snd (recordPayment env caseId paymentId amount w) in
  exists c',
    lookupCase w' caseId = Some c'
    /\ ((remaining <= 0)%Q -> Case.status c <> CLOSED ->
          Case.status c' = CLOSED
          /\ (Case.currentDebt c' == 0)%Q
          /\ Case.closedAt c' = Some (Date_now env (3 + dates w))
          /\ actions w' caseId
             = actions w caseId ++ ["PAYMENT_RECEIVED"; "CASE_CLOSED"])
    /\ (Case.status c = CLOSED ->
          Case.status c' = CLOSED
          /\ Case.closedAt c' = Case.closedAt c
          /\ actions w' caseId = actions w caseId ++ ["PAYMENT_RECEIVED"]).
Proof.
  intros Hc Hh Hs. cbv zeta.
  rewrite (recordPayment_fresh env w caseId paymentId amount l c Hc Hh Hs).
  cbn [snd]. rewrite lookupCase_outcome by assumption. rewrite actions_outcome.
  eexists. split; [reflexivity|]. unfold settled.
  set (c1 := applied amount (Date_now env (dates w)) (Date_now env (S (dates w))) c).
  split.
  - intros Hdebt Hst. destruct (Math_max_nonpos _ Hdebt) as [Hle Hzero].
    assert (Hcl : closes c1 = true).
    { unfold closes. change (Case.currentDebt c1) with
        (Math_max 0 (Case.originalDebt c + Case.interestAccrued c
                     - (Case.paidAmount c + amount))%Q).
      change (Case.status c1) with (Case.status c).
      rewrite Hle, bool_decide_eq_false_2 by assumption. reflexivity. }
    rewrite Hcl.
    assert (Hre : reopens amount
                    (Case.set_closedAt (Some (Date_now env (S (S (S (dates w))))))
                       (Case.set_status CLOSED c1)) = false) by reflexivity.
    rewrite Hre. cbn [fst snd]. split; [reflexivity|]. split; [exact Hzero|].
    split; reflexivity.
  - intros Hst.
    assert (Hcl : closes c1 = false).
    { unfold closes. change (Case.status c1) with (Case.status c).
      rewrite bool_decide_eq_true_2 by assumption. apply andb_false_r. }
    assert (Hre : reopens amount c1 = false).
    { unfold reopens. change (Case.status c1) with (Case.status c).
      rewrite Hst. reflexivity. }
    rewrite Hcl, Hre. cbn [fst snd]. split; [exact Hst|]. split; reflexivity.
Qed.


(** C8. When the insertion of a new key brings the ledger above 10000 keys,
    the ledger that remains is the insertion order without its first 5000
    keys: exactly 5000 keys are evicted, they are the oldest, every other key
    stays, and a payment whose key is still resident is suppressed
    ([recordPayment] returns the stored case, or [null] for an unknown case,
    and changes nothing). *)
Theorem ledger_eviction w caseId paymentId amount l c :
  cases w !! caseId = Some l ->
  heap w !! l = Some c ->
  NoDup (processedPayments w) ->
  Set_has (idempotencyKey caseId paymentId) (processedPayments w) = false ->
  (10000 < Set_size (processedPayments w ++ [idempotencyKey caseId paymentId]))%Z ->
  let inserted := processedPayments w ++ [idempotencyKey caseId paymentId] in
  let oldest := take (Z.to_nat 5000) inserted in
  let w' := snd (recordPayment env caseId paymentId amount w) in
  processedPayments w' = drop (Z.to_nat 5000) inserted
  /\ Z.of_nat (length oldest) = 5000%Z
  /\ (forall k, k ∈ oldest -> k ∉ processedPayments w')
  /\ (forall k, k ∈ inserted -> k ∉ oldest -> k ∈ processedPayments w')
  /\ (forall cid pid a,
        idempotencyKey cid pid ∈ processedPayments w' ->
        recordPayment env cid pid a w' = (Ok (cases w' !! cid), w')).
Proof.
  intros Hc Hh Hnd Hs Hsz. cbv zeta.
  rewrite (recordPayment_fresh env w caseId paymentId amount l c Hc Hh Hs).
  cbn [snd].
  destruct (paymentOutcome_fields env w caseId paymentId amount l c)
    as (_ & _ & _ & Ep & _).
  set (o := paymentOutcome env w caseId paymentId amount l c) in *.
  assert (Hadd : Set_add (idempotencyKey caseId paymentId) (processedPayments w)
                 = processedPayments w ++ [idempotencyKey caseId paymentId]).
  { unfold Set_add. rewrite Hs. reflexivity. }
  assert (Hnd' : NoDup (processedPayments w ++ [idempotencyKey caseId paymentId])).
  { rewrite <- Hadd. apply Set_add_NoDup. assumption. }
  assert (Ep' : processedPayments o
                = drop (Z.to_nat 5000)
                    (processedPayments w ++ [idempotencyKey caseId paymentId])).
  { rewrite Ep, Hadd, cleanup_NoDup by assumption.
    apply Z.ltb_lt in Hsz. rewrite Hsz. reflexivity. }
  split; [exact Ep'|]. split.
  { rewrite length_take. unfold Set_size in Hsz. lia. }
  rewrite <- (take_drop (Z.to_nat 5000)
                (processedPayments w ++ [idempotencyKey caseId paymentId])) in Hnd'.
  apply NoDup_app in Hnd' as (_ & Hdisj & _).
  split; [intros k Hk; rewrite Ep'; auto|]. split.
  - intros k Hk Hnk. rewrite Ep'.
    rewrite <- (take_drop (Z.to_nat 5000)
                  (processedPayments w ++ [idempotencyKey caseId paymentId])) in Hk.
    apply elem_of_app in Hk as [Hk|Hk]; [contradiction|assumption].
  - intros cid pid a Hin. apply recordPayment_resident. assumption.
Qed.

(** C10. For an existing case [getCaseStatus] answers with the status and
    [canAcceptPayments], which is [false] exactly for LEGAL_ACTION; a CLOSED
    case gets [canAcceptPayments = true] and no reason, and no input at all
    produces the reason text of the CLOSED branch. *)
Theorem getCaseStatus_canAcceptPayments w id l c :
  cases w !! id = Some l ->
  heap w !! l = Some c ->
  exists resp,
    getCaseStatus id w = (Ok (Some resp), w)
    /\ CaseStatusResponse.status resp = Case.status c
    /\ (CaseStatusResponse.canAcceptPayments resp = false
        <-> Case.status c = LEGAL_ACTION)
    /\ (Case.status c = CLOSED ->
          CaseStatusResponse.canAcceptPayments resp = true
          /\ CaseStatusResponse.reason resp = None)
    /\ CaseStatusResponse.reason resp
       <> Some "Case is closed. Payment may trigger review.".
Proof.
  intros Hc Hh. unfold getCaseStatus. prims. red_world. rewrite Hc. red_world.
  rewrite Hh. eexists. split; [reflexivity|].
  cbn [CaseStatusResponse.status CaseStatusResponse.canAcceptPayments
       CaseStatusResponse.reason].
  unfold canAcceptPayments. destruct (Case.status c); cbn;
    repeat split; intros; try split; try discriminate; congruence.
Qed.

End Engine.

(** ** The publisher and the consumer *)

Section Consumer.

Variable env : Env.

Lemma publish_run routingKey event w :
  publish env routingKey event w
  = (Ok tt, set_wire (wire w ++ [publishAttempt env routingKey event (sends w)])
              (set_sends (S (sends w)) w)).
Proof.
  unfold publish, channel_publish, publishAttempt. prims. red_world.
  destruct (channel_ok env (sends w)); reflexivity.
Qed.

(** Where a stored case is concerned, [recordPayment] returns the reference
    it found and touches neither the wire nor the consumer's own set. *)
Lemma recordPayment_existing w caseId paymentId amount l b :
  cases w !! caseId = Some l ->
  heap w !! l = Some b ->
  exists w1 u,
    recordPayment env caseId paymentId amount w = (Ok (Some l), w1)
    /\ heap w1 !! l = Some u
    /\ cases w1 = cases w
    /\ wire w1 = wire w
    /\ sends w1 = sends w
    /\ processedEventIds w1 = processedEventIds w.
Proof.
  intros Hc Hh.
  destruct (Set_has (idempotencyKey caseId paymentId) (processedPayments w)) eqn:Hs.
  - exists w, b. rewrite (recordPayment_duplicate env w caseId paymentId amount l Hc Hs).
    repeat split; auto.
  - rewrite (recordPayment_fresh env w caseId paymentId amount l b Hc Hh Hs).
    destruct (paymentOutcome_fields env w caseId paymentId amount l b)
      as (Ec & Eh & _ & _ & Ee & Ew & Es).
    eexists. eexists. split; [reflexivity|]. rewrite Eh, lookup_insert_eq.
    repeat split; auto.
Qed.

Lemma handlePaymentCompleted_run event w l b w1 u :
  cases w !! PaymentPayload.caseId (PaymentCompletedEvent.payload event) = Some l ->
  heap w !! l = Some b ->
  recordPayment env (PaymentPayload.caseId (PaymentCompletedEvent.payload event))
    (PaymentPayload.id (PaymentCompletedEvent.payload event))
    (PaymentPayload.amount (PaymentCompletedEvent.payload event)) w
  = (Ok (Some l), w1) ->
  heap w1 !! l = Some u ->
  handlePaymentCompleted env event w = (Ok tt, published env event b u w1).
Proof.
  intros Hc Hh Hr Hu.
  unfold handlePaymentCompleted, getCaseById, publishBalanceUpdated.
  unfold bind at 1. unfold cases_get, gets. rewrite Hc.
  unfold bind at 1. unfold deref at 1. rewrite Hh.
  unfold bind at 1. rewrite Hr.
  unfold bind at 1. unfold deref at 1. rewrite Hu.
  unfold bind at 1. unfold bind at 1. unfold uuid at 1.
  unfold bind at 1. unfold newDate at 1. rewrite publish_run.
  prims. repeat (progress (red_world; rewrite ?Hu)).
  rewrite bool_decide_eq_true_2 by reflexivity. reflexivity.
Qed.

Lemma handlePaymentCompleted_unknown event w :
  cases w !! PaymentPayload.caseId (PaymentCompletedEvent.payload event) = None ->
  handlePaymentCompleted env event w
  = (Throw ("Case not found: "
            +:+ PaymentPayload.caseId (PaymentCompletedEvent.payload event)), w).
Proof.
  intros Hc. unfold handlePaymentCompleted, getCaseById. prims. red_world.
  rewrite Hc. reflexivity.
Qed.

Lemma processMessage_malformed msg w :
  ConsumeMessage.content msg = None ->
  processMessage env msg w = (Throw "Unexpected token in JSON", w).
Proof. intros Hm. unfold processMessage. rewrite Hm. reflexivity. Qed.

Lemma processMessage_seen msg event w :
  ConsumeMessage.content msg = Some event ->
  Set_has (PaymentCompletedEvent.eventId event) (processedEventIds w) = true ->
  processMessage env msg w = (Ok tt, set_wire (wire w ++ [EAck msg]) w).
Proof.
  intros Hm Hs. unfold processMessage. rewrite Hm. prims. red_world.
  rewrite Hs. reflexivity.
Qed.

Lemma processMessage_unknown msg event w :
  ConsumeMessage.content msg = Some event ->
  Set_has (PaymentCompletedEvent.eventId event) (processedEventIds w) = false ->
  cases w !! PaymentPayload.caseId (PaymentCompletedEvent.payload event) = None ->
  processMessage env msg w
  = (Throw ("Case not found: "
            +:+ PaymentPayload.caseId (PaymentCompletedEvent.payload event)), w).
Proof.
  intros Hm Hs Hc. unfold processMessage. rewrite Hm.
  unfold bind at 1. unfold gets at 1. rewrite Hs.
  unfold bind at 1. rewrite handlePaymentCompleted_unknown by assumption.
  reflexivity.
Qed.

Lemma processMessage_existing msg event w l b w1 u :
  ConsumeMessage.content msg = Some event ->
  Set_has (PaymentCompletedEvent.eventId event) (processedEventIds w) = false ->
  cases w !! PaymentPayload.caseId (PaymentCompletedEvent.payload event) = Some l ->
  heap w !! l = Some b ->
  recordPayment env (PaymentPayload.caseId (PaymentCompletedEvent.payload event))
    (PaymentPayload.id (PaymentCompletedEvent.payload event))
    (PaymentPayload.amount (PaymentCompletedEvent.payload event)) w
  = (Ok (Some l), w1) ->
  heap w1 !! l = Some u ->
  processMessage env msg w
  = (Ok tt, acknowledged msg event (published env event b u w1)).
Proof.
  intros Hm Hs Hc Hh Hr Hu. unfold processMessage. rewrite Hm.
  unfold bind at 1. unfold gets at 1. rewrite Hs.
  unfold bind at 1.
  rewrite (handlePaymentCompleted_run event w l b w1 u Hc Hh Hr Hu).
  reflexivity.
Qed.

Lemma onMessage_ok msg w w1 :
  processMessage env msg w = (Ok tt, w1) ->
  onMessage env (Some msg) w = (Ok tt, w1).
Proof. intros E. unfold onMessage, try_catch. rewrite E. reflexivity. Qed.

Lemma onMessage_throw msg w errorMessage w1 :
  processMessage env msg w = (Throw errorMessage, w1) ->
  onMessage env (Some msg) w = (Ok tt, rejected msg errorMessage w1).
Proof.
  intros E. unfold onMessage, try_catch, rejected. rewrite E.
  destruct (getDeathCount msg <? 3)%Z eqn:Hd.
  - apply Z.ltb_lt in Hd. rewrite bool_decide_eq_true_2 by assumption.
    prims. red_world. rewrite <- app_assoc. reflexivity.
  - apply Z.ltb_ge in Hd. rewrite bool_decide_eq_false_2 by lia.
    prims. red_world. rewrite <- app_assoc. reflexivity.
Qed.




End Consumer.

(** ** The other operations on the store *)

Section Store.

Variable env : Env.

Lemma getCaseStatus_pure id w : snd (getCaseStatus id w) = w.
Proof.
  unfold getCaseStatus. prims. red_world.
  destruct (cases w !! id) as [l|]; [|reflexivity]. red_world.
  destruct (heap w !! l); reflexivity.
Qed.

Lemma updateCase_unknown w id dto :
  cases w !! id = None -> updateCase env id dto w = (Ok None, w).
Proof. intros Hc. unfold updateCase. prims. red_world. rewrite Hc. reflexivity. Qed.

(** [updateCase] rewrites one object in place and leaves its money alone. *)
Lemma updateCase_effect w id dto l c :
  cases w !! id = Some l ->
  heap w !! l = Some c ->
  exists c' w',
    updateCase env id dto w = (Ok (Some l), w')
    /\ cases w' = cases w
    /\ heap w' = <[l := c']> (heap w)
    /\ sameDebts c c'
    /\ processedPayments w' = processedPayments w.
Proof.
  intros Hc Hh. unfold updateCase. prims. red_world. rewrite Hc. red_world.
  rewrite Hh. red_world.
  destruct dto as [st pr ag tm nt tg].
  cbn [UpdateCaseDto.status UpdateCaseDto.priority UpdateCaseDto.assignedAgentId
       UpdateCaseDto.assignedTeam UpdateCaseDto.notes UpdateCaseDto.tags].
  destruct st as [st|], pr as [pr|], ag as [ag|], tm as [tm|], nt as [nt|],
    tg as [tg|];
    red_world; rewrite ?(alter_alt_Some _ _ _ _ Hh); exec;
    try (destruct (bool_decide (st = Case.status c)); cbn [negb]; exec;
         try (destruct (bool_decide (st = CLOSED)); exec));
    rewrite ?(insert_id _ _ _ Hc);
    (eexists; eexists; split; [reflexivity|]; split; [reflexivity|];
     split; [rewrite ?insert_insert_eq; reflexivity|];
     split; [repeat split | reflexivity]).
Qed.

(** [createCase] adds one object at a fresh reference and one entry to
    [cases]; the objects already there are not touched. *)
Lemma createCase_effect w dto :
  exists id l c' w',
    createCase env dto w = (Ok l, w')
    /\ heap w !! l = None
    /\ heap w' = <[l := c']> (heap w)
    /\ cases w' = <[id := l]> (cases w)
    /\ processedPayments w' = processedPayments w.
Proof.
  unfold createCase, alloc. prims. red_world.
  do 4 eexists. split; [reflexivity|]. red_world.
  split; [|repeat split; reflexivity].
  apply not_elem_of_dom. apply is_fresh.
Qed.

End Store.

(** ** What every input preserves *)

Lemma wf_same w w' :
  wf w -> cases w' = cases w -> heap w' = heap w -> wf w'.
Proof. unfold wf. intros Hwf -> ->. assumption. Qed.

Lemma wf_update w w' l c c' :
  wf w -> heap w !! l = Some c ->
  cases w' = cases w -> heap w' = <[l := c']> (heap w) -> wf w'.
Proof.
  unfold wf. intros Hwf Hl -> -> id l' Hid.
  destruct (decide (l = l')) as [->|Hne].
  - rewrite lookup_insert_eq. eauto.
  - rewrite lookup_insert_ne by assumption. eauto.
Qed.

Lemma wf_emptyWorld : wf emptyWorld.
Proof. intros id l H. cbn in H. rewrite lookup_empty in H. discriminate. Qed.

Section Frame.

Variable env : Env.
Variable R : Case.t -> Case.t -> Prop.
Variable allowed : Q -> Prop.

Hypothesis R_refl : forall c, R c c.
Hypothesis R_trans : forall c1 c2 c3, R c1 c2 -> R c2 c3 -> R c1 c3.
Hypothesis R_same : forall c c', sameDebts c c' -> R c c'.
Hypothesis R_paid : forall a c c', allowed a -> paidOnce a c c' -> R c c'.

Lemma heapExt_same w w' : heap w' = heap w -> heapExt R w w'.
Proof. intros E l c Hl. rewrite E. eauto. Qed.

Lemma heapExt_trans w1 w2 w3 :
  heapExt R w1 w2 -> heapExt R w2 w3 -> heapExt R w1 w3.
Proof.
  intros H12 H23 l c Hl. destruct (H12 l c Hl) as (c2 & Hl2 & R2).
  destruct (H23 l c2 Hl2) as (c3 & Hl3 & R3). eauto.
Qed.

Lemma heapExt_update w w' l c c' :
  heap w !! l = Some c -> R c c' -> heap w' = <[l := c']> (heap w) ->
  heapExt R w w'.
Proof.
  intros Hl HR E l' x Hx. rewrite E. destruct (decide (l = l')) as [->|Hne].
  - rewrite lookup_insert_eq. rewrite Hl in Hx. injection Hx as <-. eauto.
  - rewrite lookup_insert_ne by assumption. eauto.
Qed.

Lemma heapExt_fresh w w' l c' :
  heap w !! l = None -> heap w' = <[l := c']> (heap w) -> heapExt R w w'.
Proof.
  intros Hl E l' x Hx. rewrite E. destruct (decide (l = l')) as [->|Hne].
  - congruence.
  - rewrite lookup_insert_ne by assumption. eauto.
Qed.

Lemma recordPayment_frame w caseId paymentId amount :
  wf w -> allowed amount ->
  wf (snd (recordPayment env caseId paymentId amount w))
  /\ heapExt R w (snd (recordPayment env caseId paymentId amount w)).
Proof.
  intros Hwf Ha.
  destruct (recordPayment_cases env w caseId paymentId amount Hwf)
    as [(Hc & E) | [(l & Hc & Hs & E) | (l & c & Hc & Hh & Hs & E)]];
    rewrite E; cbn [snd].
  - split; [assumption | apply heapExt_same; reflexivity].
  - split; [assumption | apply heapExt_same; reflexivity].
  - destruct (paymentOutcome_fields env w caseId paymentId amount l c)
      as (Ec & Eh & _).
    split.
    + eapply wf_update; eassumption.
    + refine (heapExt_update w _ l c _ Hh _ Eh).
      apply (R_paid amount); [assumption|].
      apply settled_money.
Qed.

Lemma updateCase_frame w id dto :
  wf w ->
  wf (snd (updateCase env id dto w)) /\ heapExt R w (snd (updateCase env id dto w)).
Proof.
  intros Hwf. destruct (cases w !! id) as [l|] eqn:Hc.
  - destruct (Hwf _ _ Hc) as [c Hh].
    destruct (updateCase_effect env w id dto l c Hc Hh)
      as (c' & w' & E & Ec & Eh & Hs & _).
    rewrite E. cbn [snd]. split.
    + eapply wf_update; eassumption.
    + exact (heapExt_update w _ l c c' Hh (R_same _ _ Hs) Eh).
  - rewrite updateCase_unknown by assumption. cbn [snd].
    split; [assumption | apply heapExt_same; reflexivity].
Qed.

Lemma createCase_frame w dto :
  wf w ->
  wf (snd (createCase env dto w)) /\ heapExt R w (snd (createCase env dto w)).
Proof.
  intros Hwf. destruct (createCase_effect env w dto)
    as (id & l & c' & w' & E & Hl & Eh & Ec & _).
  rewrite E. cbn [snd]. split.
  - intros id' l' Hid. rewrite Ec in Hid. rewrite Eh.
    destruct (decide (id = id')) as [->|Hne].
    + rewrite lookup_insert_eq in Hid. injection Hid as <-.
      rewrite lookup_insert_eq. eauto.
    + rewrite lookup_insert_ne in Hid by assumption.
      destruct (Hwf _ _ Hid) as [x Hx].
      destruct (decide (l = l')) as [->|Hne']; [congruence|].
      rewrite lookup_insert_ne by assumption. eauto.
  - eapply heapExt_fresh; eassumption.
Qed.

(** The three ways a delivery can go. *)
Lemma onMessage_paths w msg :
  wf w ->
  (exists errorMessage,
     onMessage env (Some msg) w = (Ok tt, rejected msg errorMessage w))
  \/ onMessage env (Some msg) w = (Ok tt, set_wire (wire w ++ [EAck msg]) w)
  \/ (exists event l b w1 u,
        ConsumeMessage.content msg = Some event
        /\ heap w !! l = Some b
        /\ recordPayment env
             (PaymentPayload.caseId (PaymentCompletedEvent.payload event))
             (PaymentPayload.id (PaymentCompletedEvent.payload event))
             (PaymentPayload.amount (PaymentCompletedEvent.payload event)) w
           = (Ok (Some l), w1)
        /\ heap w1 !! l = Some u
        /\ wire w1 = wire w
        /\ onMessage env (Some msg) w
           = (Ok tt, acknowledged msg event (published env event b u w1))).
Proof.
  intros Hwf. destruct (ConsumeMessage.content msg) as [event|] eqn:Hm.
  - destruct (Set_has (PaymentCompletedEvent.eventId event) (processedEventIds w)) eqn:Hs.
    + right. left. apply onMessage_ok. apply (processMessage_seen env msg event); assumption.
    + destruct (cases w !! PaymentPayload.caseId (PaymentCompletedEvent.payload event))
        as [l|] eqn:Hc.
      * right. right. destruct (Hwf _ _ Hc) as [b Hh].
        destruct (recordPayment_existing env w _
                    (PaymentPayload.id (PaymentCompletedEvent.payload event))
                    (PaymentPayload.amount (PaymentCompletedEvent.payload event))
                    l b Hc Hh) as (w1 & u & Hr & Hu & _ & Ew & _).
        exists event, l, b, w1, u. repeat (split; [assumption || reflexivity|]).
        apply onMessage_ok.
        apply (processMessage_existing env msg event w l b w1 u); assumption.
      * left. eexists. apply onMessage_throw.
        apply (processMessage_unknown env msg event); assumption.
  - left. eexists. apply onMessage_throw. apply processMessage_malformed. assumption.
Qed.

(** The case store after a delivery is the one its [recordPayment] left, or
    the one before when the handler did not get that far. *)
Lemma onMessage_store w msg :
  wf w ->
  let w' := snd (onMessage env (Some msg) w) in
  (cases w' = cases w /\ heap w' = heap w
   /\ processedPayments w' = processedPayments w)
  \/ (exists event,
        ConsumeMessage.content msg = Some event
        /\ let w1 := snd (recordPayment env
                            (PaymentPayload.caseId (PaymentCompletedEvent.payload event))
                            (PaymentPayload.id (PaymentCompletedEvent.payload event))
                            (PaymentPayload.amount (PaymentCompletedEvent.payload event))
                            w) in
           cases w' = cases w1 /\ heap w' = heap w1
           /\ processedPayments w' = processedPayments w1).
Proof.
  intros Hwf. cbv zeta.
  destruct (onMessage_paths w msg Hwf)
    as [(e & E) | [E | (event & l & b & w1 & u & Hm & _ & Hr & _ & _ & E)]];
    rewrite E; cbn [snd].
  - left. repeat split; reflexivity.
  - left. repeat split; reflexivity.
  - right. exists event. split; [assumption|]. rewrite Hr. repeat split; reflexivity.
Qed.

(** The handler compares the status of one and the same object with
    itself, so no delivery ever puts a status-changed event on the wire. *)
Lemma status_changed_not_published w msg e :
  wf w ->
  e ∈ wire (snd (onMessage env (Some msg) w)) ->
  e ∈ wire w
  \/ (forall exchange message, e <> EPublish exchange "case.status.changed" message).
Proof.
  intros Hwf.
  destruct (onMessage_paths w msg Hwf)
    as [(x & E) | [E | (event & l & b & w1 & u & _ & _ & _ & _ & Ew & E)]];
    rewrite E; cbn [snd].
  - unfold rejected. red_world. rewrite elem_of_app.
    intros [H|H]; [left; assumption|right].
    apply elem_of_cons in H as [->|H]; [discriminate|].
    apply list_elem_of_singleton in H as ->. discriminate.
  - red_world. rewrite elem_of_app. intros [H|H]; [left; assumption|right].
    apply list_elem_of_singleton in H as ->. discriminate.
  - unfold acknowledged, published. red_world. rewrite Ew, !elem_of_app.
    intros [[H|H]|H]; [left; assumption|right|right].
    + apply list_elem_of_singleton in H as ->. unfold publishAttempt.
      destruct (channel_ok env (sends w1)); intros; discriminate.
    + apply list_elem_of_singleton in H as ->. discriminate.
Qed.

Lemma try_catch_const {A} (body : M A) (v : A) w :
  snd (try_catch body (fun _ => ret v) w) = snd (body w).
Proof. unfold try_catch, ret. destruct (body w) as [[a|e] w']; reflexivity. Qed.

Lemma snd_bind_pure {A B} (m : M A) (k : A -> M B) w :
  (forall a w', snd (k a w') = w') -> snd (bind m k w) = snd (m w).
Proof.
  intros Hk. unfold bind. destruct (m w) as [[a|e] w']; [apply Hk | reflexivity].
Qed.

Lemma serve_frame i w :
  wf w -> inputAllowed allowed i ->
  wf (serve env i w) /\ heapExt R w (serve env i w).
Proof.
  intros Hwf Hi. destruct i as [dto|id dto|id paymentId amount|id|msg]; cbn [serve].
  - unfold Controller_createCase. rewrite try_catch_const.
    destruct (_ || _ || _ || _);
      [cbn [ret snd]; split; [assumption | apply heapExt_same; reflexivity]|].
    destruct (Qle_bool _ 0);
      [cbn [ret snd]; split; [assumption | apply heapExt_same; reflexivity]|].
    rewrite snd_bind_pure by reflexivity. apply createCase_frame. assumption.
  - unfold Controller_updateCase. rewrite try_catch_const.
    rewrite snd_bind_pure by (intros [?|] ?; reflexivity).
    apply updateCase_frame. assumption.
  - unfold Controller_recordPayment. rewrite try_catch_const.
    destruct (_ || _);
      [cbn [ret snd]; split; [assumption | apply heapExt_same; reflexivity]|].
    rewrite snd_bind_pure by (intros [?|] ?; reflexivity).
    apply recordPayment_frame; assumption.
  - unfold Controller_getCaseStatus. rewrite try_catch_const.
    rewrite snd_bind_pure by (intros [?|] ?; reflexivity).
    rewrite getCaseStatus_pure.
    split; [assumption | apply heapExt_same; reflexivity].
  - destruct (onMessage_store w msg Hwf)
      as [(Ec & Eh & _) | (event & Hm & Ec & Eh & _)].
    + split; [eapply wf_same; eassumption | apply heapExt_same; assumption].
    + cbn [inputAllowed] in Hi. rewrite Hm in Hi.
      destruct (recordPayment_frame w
                  (PaymentPayload.caseId (PaymentCompletedEvent.payload event))
                  (PaymentPayload.id (PaymentCompletedEvent.payload event)) _ Hwf Hi)
        as (Hwf1 & Hext1).
      split.
      * eapply wf_same; eassumption.
      * eapply heapExt_trans; [exact Hext1 | apply heapExt_same; assumption].
Qed.


End Frame.

(** The ledger stays a set: no key occurs twice in it. *)
Lemma recordPayment_ledger env w caseId paymentId amount :
  wf w -> NoDup (processedPayments w) ->
  NoDup (processedPayments (snd (recordPayment env caseId paymentId amount w))).
Proof.
  intros Hwf Hnd.
  destruct (recordPayment_cases env w caseId paymentId amount Hwf)
    as [(Hc & E) | [(l & Hc & Hs & E) | (l & c & Hc & Hh & Hs & E)]];
    rewrite E; cbn [snd]; try assumption.
  destruct (paymentOutcome_fields env w caseId paymentId amount l c)
    as (_ & _ & _ & -> & _).
  apply cleanup_NoDup_preserved, Set_add_NoDup. assumption.
Qed.

Lemma serve_ledger env i w :
  wf w -> NoDup (processedPayments w) -> NoDup (processedPayments (serve env i w)).
Proof.
  intros Hwf Hnd. destruct i as [dto|id dto|id paymentId amount|id|msg]; cbn [serve].
  - unfold Controller_createCase. rewrite try_catch_const.
    destruct (_ || _ || _ || _); [assumption|].
    destruct (Qle_bool _ 0); [assumption|].
    rewrite snd_bind_pure by reflexivity.
    destruct (createCase_effect env w dto) as (x & l & c' & w' & E & _ & _ & _ & Ep).
    rewrite E. cbn [snd]. rewrite Ep. assumption.
  - unfold Controller_updateCase. rewrite try_catch_const.
    rewrite snd_bind_pure by (intros [?|] ?; reflexivity).
    destruct (cases w !! id) as [l|] eqn:Hc.
    + destruct (Hwf _ _ Hc) as [c Hh].
      destruct (updateCase_effect env w id dto l c Hc Hh)
        as (c' & w' & E & _ & _ & _ & Ep).
      rewrite E. cbn [snd]. rewrite Ep. assumption.
    + rewrite updateCase_unknown by assumption. assumption.
  - unfold Controller_recordPayment. rewrite try_catch_const.
    destruct (_ || _); [assumption|].
    rewrite snd_bind_pure by (intros [?|] ?; reflexivity).
    apply recordPayment_ledger; assumption.
  - unfold Controller_getCaseStatus. rewrite try_catch_const.
    rewrite snd_bind_pure by (intros [?|] ?; reflexivity).
    rewrite getCaseStatus_pure. assumption.
  - destruct (onMessage_store env w msg Hwf)
      as [(_ & _ & Ep) | (event & _ & _ & _ & Ep)]; rewrite Ep;
      [assumption | apply recordPayment_ledger; assumption].
Qed.

(** ** Invariants of the running system *)

Lemma forEach_wf {A} (f : A -> M unit) (xs : list A) w :
  (forall x w0, wf w0 -> exists w', f x w0 = (Ok tt, w') /\ wf w') ->
  wf w -> wf (snd (forEach xs f w)).
Proof.
  intros Hf. revert w. induction xs as [|x xs IH]; intros w Hwf; [assumption|].
  cbn [forEach]. unfold bind. destruct (Hf x w Hwf) as (w' & -> & Hwf'). auto.
Qed.

Lemma wf_initialWorld : wf initialWorld.
Proof.
  unfold initialWorld, initializeSampleData.
  apply forEach_wf; [|apply wf_emptyWorld].
  intros c w Hwf. unfold alloc. prims. red_world. eexists. split; [reflexivity|].
  intros id l. red_world. rewrite !lookup_insert. intros Hid.
  repeat case_decide; simplify_eq; eauto.
Qed.

Lemma keepsBalance_same c c' : sameDebts c c' -> keepsBalance c c'.
Proof.
  unfold sameDebts, keepsBalance, balanced. intros (-> & -> & -> & ->). tauto.
Qed.

Lemma keepsBalance_refl c : keepsBalance c c.
Proof. unfold keepsBalance. tauto. Qed.

Lemma keepsBalance_trans c1 c2 c3 :
  keepsBalance c1 c2 -> keepsBalance c2 c3 -> keepsBalance c1 c3.
Proof. unfold keepsBalance. tauto. Qed.

Lemma balanced_paidOnce a c c' : paidOnce a c c' -> balanced c'.
Proof.
  unfold paidOnce, balanced. intros (-> & -> & -> & ->). reflexivity.
Qed.

Lemma keepsBalance_paid (a : Q) c c' : True -> paidOnce a c c' -> keepsBalance c c'.
Proof. intros _ Hp _. eapply balanced_paidOnce; eassumption. Qed.


Lemma inputAllowed_any i : inputAllowed (fun _ => True) i.
Proof.
  destruct i as [| | | |msg]; cbn; auto.
  destruct (ConsumeMessage.content msg); exact I.
Qed.


(** Every reachable world is well formed and its ledger is a set. *)
Lemma reachable_wf env w :
  reachable env w -> wf w /\ NoDup (processedPayments w).
Proof.
  intros [inputs ->]. unfold run.
  assert (G : forall w0, wf w0 /\ NoDup (processedPayments w0) ->
                         wf (foldl (fun w' i => serve env i w') w0 inputs)
                         /\ NoDup (processedPayments
                                     (foldl (fun w' i => serve env i w') w0 inputs))).
  { induction inputs as [|i inputs IH]; intros w0 [Hwf Hnd]; [auto|].
    cbn [foldl]. apply IH. split.
    - apply (serve_frame env keepsBalance (fun _ => True) keepsBalance_refl
               keepsBalance_trans keepsBalance_same keepsBalance_paid i w0 Hwf).
      apply inputAllowed_any.
    - apply serve_ledger; assumption. }
  apply G. split; [apply wf_initialWorld | apply NoDup_nil_2].
Qed.




(** ** The properties on concrete inputs *)

Lemma initialWorld_cases :
  cases initialWorld !! "CASE-2024-001" = Some 0
  /\ cases initialWorld !! "CASE-2024-002" = Some 1
  /\ cases initialWorld !! "CASE-2024-003" = Some 2
  /\ cases initialWorld !! "CASE-2024-004" = Some 3
  /\ cases initialWorld !! "CASE-2024-005" = Some 4
  /\ cases initialWorld !! "CASE-FAKE" = None.
Proof. vm_compute. repeat split; reflexivity. Qed.

Lemma initialWorld_heap :
  heap initialWorld !! 0 = Some sampleCase1
  /\ heap initialWorld !! 1 = Some sampleCase2
  /\ heap initialWorld !! 2 = Some sampleCase3
  /\ heap initialWorld !! 3 = Some sampleCase4
  /\ heap initialWorld !! 4 = Some sampleCase5.
Proof. vm_compute. repeat split; reflexivity. Qed.

(** *** The cases of tests/CaseService.test.ts *)

Example test_recordPayment_updates_balance :
  exists c,
    lookupCase (snd (recordPayment env0 "CASE-2024-001" "PAY-TEST-001" 1500
                       initialWorld)) "CASE-2024-001" = Some c
    /\ (Case.paidAmount c == 4500)%Q
    /\ (Case.currentDebt c == 14700)%Q.
Proof. eexists. split; [vm_compute; reflexivity|]. vm_compute. split; reflexivity. Qed.

Example test_recordPayment_unknown_case :
  fst (recordPayment env0 "CASE-FAKE" "PAY-TEST-001" 1000 initialWorld) = Ok None.
Proof. vm_compute. reflexivity. Qed.

Example test_recordPayment_duplicate_ignored :
  let w1 := snd (recordPayment env0 "CASE-2024-002" "PAY-IDEM-001" 1000 initialWorld) in
  let w2 := snd (recordPayment env0 "CASE-2024-002" "PAY-IDEM-001" 1000 w1) in
  exists c1 c2,
    lookupCase w1 "CASE-2024-002" = Some c1
    /\ lookupCase w2 "CASE-2024-002" = Some c2
    /\ (Case.paidAmount c1 == 1000)%Q
    /\ (Case.paidAmount c2 == 1000)%Q.
Proof.
  cbv zeta. eexists. eexists.
  split; [vm_compute; reflexivity|]. split; [vm_compute; reflexivity|].
  vm_compute. split; reflexivity.
Qed.

Example test_recordPayment_autoclose :
  exists c d,
    lookupCase (snd (recordPayment env0 "CASE-2024-002" "PAY-FULL-001" 5520.50
                       initialWorld)) "CASE-2024-002" = Some c
    /\ (Case.currentDebt c == 0)%Q
    /\ Case.status c = CLOSED
    /\ Case.closedAt c = Some d.
Proof.
  eexists. eexists. split; [vm_compute; reflexivity|].
  vm_compute. repeat split; reflexivity.
Qed.

Example test_recordPayment_reopens_written_off :
  exists c,
    lookupCase (snd (recordPayment env0 "CASE-2024-005" "PAY-REOPEN-001" 500
                       initialWorld)) "CASE-2024-005" = Some c
    /\ Case.status c = ACTIVE
    /\ (Case.paidAmount c == 500)%Q.
Proof.
  eexists. split; [vm_compute; reflexivity|]. vm_compute. split; reflexivity.
Qed.

Example test_getCaseStatus_settlement :
  exists resp,
    fst (getCaseStatus "CASE-2024-001" initialWorld) = Ok (Some resp)
    /\ CaseStatusResponse.status resp = SETTLEMENT
    /\ CaseStatusResponse.canAcceptPayments resp = true.
Proof. eexists. split; [vm_compute; reflexivity|]. split; reflexivity. Qed.

Example test_getCaseStatus_legal_action :
  exists resp,
    fst (getCaseStatus "CASE-2024-003" initialWorld) = Ok (Some resp)
    /\ CaseStatusResponse.status resp = LEGAL_ACTION
    /\ CaseStatusResponse.canAcceptPayments resp = false
    /\ CaseStatusResponse.reason resp
       = Some "Case is in legal action. Contact legal department.".
Proof. eexists. split; [vm_compute; reflexivity|]. repeat split; reflexivity. Qed.

(** *** Instances of the theorems *)

Lemma recordPayment_idempotent_witness :
  wf initialWorld
  /\ recordPayment env0 "CASE-2024-002" "PAY-IDEM-001" 1000
       (snd (recordPayment env0 "CASE-2024-002" "PAY-IDEM-001" 1000 initialWorld))
     = recordPayment env0 "CASE-2024-002" "PAY-IDEM-001" 1000 initialWorld.
Proof.
  split; [exact wf_initialWorld|].
  exact (proj1 (recordPayment_idempotent env0 initialWorld "CASE-2024-002"
                  "PAY-IDEM-001" 1000 1000 wf_initialWorld)).
Defined.

Lemma recordPayment_unknown_case_witness :
  cases initialWorld !! "CASE-FAKE" = None
  /\ recordPayment env0 "CASE-FAKE" "PAY-TEST-001" 1000 initialWorld
     = (Ok None, initialWorld).
Proof.
  assert (H : cases initialWorld !! "CASE-FAKE" = None) by (vm_compute; reflexivity).
  split; [exact H|].
  exact (recordPayment_unknown_case env0 initialWorld "CASE-FAKE" "PAY-TEST-001" 1000 H).
Defined.

Lemma recordPayment_autoclose_witness :
  cases initialWorld !! "CASE-2024-002" = Some 1
  /\ heap initialWorld !! 1 = Some sampleCase2
  /\ Set_has (idempotencyKey "CASE-2024-002" "PAY-FULL-001")
       (processedPayments initialWorld) = false
  /\ (Case.originalDebt sampleCase2 + Case.interestAccrued sampleCase2
      - (Case.paidAmount sampleCase2 + 5520.50) <= 0)%Q
  /\ Case.status sampleCase2 <> CLOSED
  /\ exists c',
       lookupCase (snd (recordPayment env0 "CASE-2024-002" "PAY-FULL-001" 5520.50
                          initialWorld)) "CASE-2024-002" = Some c'
       /\ Case.status c' = CLOSED
       /\ (Case.currentDebt c' == 0)%Q.
Proof.
  assert (H1 : cases initialWorld !! "CASE-2024-002" = Some 1)
    by (vm_compute; reflexivity).
  assert (H2 : heap initialWorld !! 1 = Some sampleCase2)
    by (vm_compute; reflexivity).
  assert (H3 : Set_has (idempotencyKey "CASE-2024-002" "PAY-FULL-001")
                 (processedPayments initialWorld) = false)
    by (vm_compute; reflexivity).
  assert (H4 : (Case.originalDebt sampleCase2 + Case.interestAccrued sampleCase2
                - (Case.paidAmount sampleCase2 + 5520.50) <= 0)%Q)
    by (vm_compute; discriminate).
  assert (H5 : Case.status sampleCase2 <> CLOSED) by discriminate.
  repeat (split; [assumption|]).
  destruct (recordPayment_autoclose env0 initialWorld "CASE-2024-002" "PAY-FULL-001"
              5520.50 1 sampleCase2 H1 H2 H3) as (c' & Hl & Hclose & _).
  destruct (Hclose H4 H5) as (Hst & Hz & _).
  exists c'. auto.
Defined.



Lemma getCaseStatus_canAcceptPayments_witness :
  cases initialWorld !! "CASE-2024-004" = Some 3
  /\ heap initialWorld !! 3 = Some sampleCase4
  /\ exists resp,
       getCaseStatus "CASE-2024-004" initialWorld = (Ok (Some resp), initialWorld)
       /\ CaseStatusResponse.status resp = CLOSED
       /\ CaseStatusResponse.canAcceptPayments resp = true
       /\ CaseStatusResponse.reason resp = None.
Proof.
  assert (H1 : cases initialWorld !! "CASE-2024-004" = Some 3)
    by (vm_compute; reflexivity).
  assert (H2 : heap initialWorld !! 3 = Some sampleCase4)
    by (vm_compute; reflexivity).
  repeat (split; [assumption|]).
  destruct (getCaseStatus_canAcceptPayments initialWorld "CASE-2024-004" 3
              sampleCase4 H1 H2) as (resp & E & Hst & _ & Hcl & _).
  exists resp. split; [exact E|]. split; [exact Hst|]. apply Hcl. reflexivity.
Defined.

Lemma crowded_NoDup : NoDup (processedPayments crowded).
Proof.
  unfold crowded. cbn [processedPayments set_processedPayments].
  apply NoDup_fmap_2; [|apply NoDup_seq].
  intros n m E. apply String.app_inj in E. apply pretty_nat_inj in E. exact E.
Qed.

Lemma crowded_size :
  (10000 < Set_size (processedPayments crowded
                     ++ [idempotencyKey "CASE-2024-002" "PAY-NEXT"]))%Z.
Proof.
  unfold crowded, Set_size. cbn [processedPayments set_processedPayments].
  rewrite length_app, length_fmap, length_seq. cbn [length]. lia.
Qed.

Lemma crowded_fresh_key :
  Set_has (idempotencyKey "CASE-2024-002" "PAY-NEXT") (processedPayments crowded)
  = false.
Proof.
  apply Set_has_false. unfold crowded. cbn [processedPayments set_processedPayments].
  intros Hin. apply list_elem_of_fmap in Hin as (n & E & _).
  cbn in E. discriminate E.
Qed.

Lemma ledger_eviction_witness :
  cases crowded !! "CASE-2024-002" = Some 1
  /\ heap crowded !! 1 = Some sampleCase2
  /\ NoDup (processedPayments crowded)
  /\ Set_has (idempotencyKey "CASE-2024-002" "PAY-NEXT") (processedPayments crowded)
     = false
  /\ (10000 < Set_size (processedPayments crowded
                        ++ [idempotencyKey "CASE-2024-002" "PAY-NEXT"]))%Z
  /\ processedPayments
       (snd (recordPayment env0 "CASE-2024-002" "PAY-NEXT" 100 crowded))
     = drop (Z.to_nat 5000)
         (processedPayments crowded ++ [idempotencyKey "CASE-2024-002" "PAY-NEXT"]).
Proof.
  assert (H1 : cases crowded !! "CASE-2024-002" = Some 1)
    by exact (proj1 (proj2 initialWorld_cases)).
  assert (H2 : heap crowded !! 1 = Some sampleCase2)
    by exact (proj1 (proj2 initialWorld_heap)).
  split; [exact H1|]. split; [exact H2|]. split; [exact crowded_NoDup|].
  split; [exact crowded_fresh_key|]. split; [exact crowded_size|].
  exact (proj1 (ledger_eviction env0 crowded "CASE-2024-002" "PAY-NEXT" 100 1
                  sampleCase2 H1 H2 crowded_NoDup crowded_fresh_key crowded_size)).
Defined.


(** The retry boundary, at death counts 0, 1, 2 and 3. *)
Lemma retry_boundary :
  wire (snd (onMessage env0 (Some (poison 0)) initialWorld))
  = [EConsoleError "[PaymentEventConsumer] Error processing message: Unexpected token in JSON";
     ENack (poison 0) false true]
  /\ wire (snd (onMessage env0 (Some (poison 1)) initialWorld))
     = [EConsoleError "[PaymentEventConsumer] Error processing message: Unexpected token in JSON";
        ENack (poison 1) false true]
  /\ wire (snd (onMessage env0 (Some (poison 2)) initialWorld))
     = [EConsoleError "[PaymentEventConsumer] Error processing message: Unexpected token in JSON";
        ENack (poison 2) false true]
  /\ wire (snd (onMessage env0 (Some (poison 3)) initialWorld))
     = [EConsoleError "[PaymentEventConsumer] Error processing message: Unexpected token in JSON";
        ENack (poison 3) false false].
Proof. vm_compute. repeat split; reflexivity. Qed.







(** The ledger key is the concatenation [caseId:paymentId]; two different
    pairs can share it when an identifier contains a colon. *)
Remark idempotencyKey_not_injective :
  idempotencyKey "A:B" "C" = idempotencyKey "A" "B:C".
Proof. reflexivity. Qed.
